(** * Axiom Hive Desktop: the verifiable state-transition core

    A shallow embedding of the class [StateSpaceModel] (the module [./ssm],
    whose text follows the inference engine in [src/inference.ts]): the
    state-space model and its hash-and-sign commitment; and of the audit-log
    path of [src/server.ts] and [src/database.ts]; followed by the properties
    the specification states about them.

    Conventions of the embedding.
    - A JavaScript [number] is an IEEE-754 binary64 value: Rocq's primitive
      [float], whose [+] and [*] round to nearest-even as JavaScript's do.
    - A [number[]] is a [list float], a [number[][]] a list of rows; an index
      outside the array reads [undefined], which is [None] here.  The class
      itself never writes into an array after making it, so its methods are
      functions of the arrays' contents.  Which of the arrays that a call
      hands out or keeps are one and the same object is the subject of a
      second embedding of [transition] and [getState], over a heap of arrays.
    - The three sizes of a configuration are integers; a length is compared
      with them as an integer.
    - A [throw] is the [Throw] result; a method of a class is a function from
      the object's state to a result and the new state.
    - What Node.js and the operating system supply (SHA-256, the [Sign] and
      [Verify] classes, the digits of a number that is not a small integer,
      the clock, the key generator) is a parameter: the class [Platform] and
      the arguments [now] and [keys].  Whether [Sign] and [Verify] take the
      kind of key that the model generates is part of that parameter: they
      either do, or throw. *)

From Stdlib Require Import List String Ascii ZArith Lia Bool.
From Stdlib Require Import PrimFloat FloatOps SpecFloat.
From Stdlib Require Import DecimalString.
From Stdlib Require DecimalPos DecimalN.
From Stdlib Require Import FloatAxioms Permutation.
Import ListNotations.

Set Warnings "-inexact-float,-register-all".

Open Scope list_scope.
Open Scope string_scope.

(** ** Exceptions and results *)

Inductive exn : Type :=
| TypeError                 (* property access on [undefined] *)
| RangeError                (* [new Array(n)] with an invalid length *)
| Error (message : string). (* [throw new Error(message)] *)

Inductive result (T : Type) : Type :=
| Ok (value : T)
| Throw (e : exn).

Arguments Ok {T} value.
Arguments Throw {T} e.

Definition bind {T U : Type} (r : result T) (k : T -> result U) : result U :=
  match r with
  | Ok v => k v
  | Throw e => Throw e
  end.

Declare Scope js_scope.
Delimit Scope js_scope with js.
Notation "x <- r ;; k" := (bind r (fun x => k))
  (at level 100, r at next level, right associativity) : js_scope.
Open Scope js_scope.

(** [for (let i = 0; i < n; i++) out[i] = body(i)], stopping at the first
    throw. *)
Fixpoint forM {T U : Type} (body : T -> result U) (l : list T)
  : result (list U) :=
  match l with
  | [] => Ok []
  | i :: rest =>
      v <- body i ;;
      vs <- forM body rest ;;
      Ok (v :: vs)
  end.

(** [for (...) acc = body(acc, k)], stopping at the first throw. *)
Fixpoint foldM {T U : Type} (body : U -> T -> result U) (l : list T) (acc : U)
  : result U :=
  match l with
  | [] => Ok acc
  | k :: rest =>
      acc' <- body acc k ;;
      foldM body rest acc'
  end.

(** ** JavaScript values the model needs *)

Definition vector := list float.
Definition matrix := list (list float).

(** [a[i]]: the element, or [undefined]. *)
Definition array_get {T : Type} (a : list T) (i : nat) : option T := nth_error a i.

(** Reading a property of [a[i]]: a [TypeError] when [a[i]] is [undefined]. *)
Definition defined {T : Type} (v : option T) : result T :=
  match v with
  | Some x => Ok x
  | None => Throw TypeError
  end.

(** [ToNumber]: [undefined] becomes [NaN]. *)
Definition to_number (v : option float) : float :=
  match v with
  | Some x => x
  | None => nan
  end.

(** ** [StateSpaceModel]: matrix helpers *)

(** [matrixMultiply(A, B)].  The column counts are those of the first rows;
    the three loops run over [rowsA], [colsB] and [colsA]. *)
Definition matrixMultiply (A B : matrix) : result matrix :=
  let rowsA := List.length A in
  A0 <- defined (array_get A 0) ;;
  let colsA := List.length A0 in
  B0 <- defined (array_get B 0) ;;
  let colsB := List.length B0 in
  forM (fun i =>
    forM (fun j =>
      foldM (fun acc k =>
               Ai <- defined (array_get A i) ;;
               let a := to_number (array_get Ai k) in
               Bk <- defined (array_get B k) ;;
               let b := to_number (array_get Bk j) in
               Ok (acc + a * b)%float)
            (seq 0 colsA) 0%float)
      (seq 0 colsB))
    (seq 0 rowsA).

Definition vectorToMatrix (v : vector) : matrix := map (fun x => [x]) v.

(** [m.map(row => row[0])].  Every matrix [transition] passes in has rows of
    exactly one number.  For an empty row JavaScript would store [undefined];
    it is [NaN] here, which later arithmetic and [JSON.stringify] treat the
    same way. *)
Definition matrixToVector (m : matrix) : vector :=
  map (fun row => to_number (array_get row 0)) m.

Definition addVectors (a b : vector) : vector :=
  map (fun p => (snd p + to_number (array_get b (fst p)))%float)
      (combine (seq 0 (List.length a)) a).

(** ** What the platform supplies *)

Class Platform : Type := {
  (** [crypto.createHash('sha256').update(s).digest('hex')] *)
  sha256_hex : string -> string;
  (** [createSign('SHA256')], [update(data)], [end()],
      [sign(privateKey, 'base64')] on a private key that
      [generateKeyPairSync('ed25519', ...)] made.  Either the [Sign] class
      signs with such a key, and this is the signature as a function of the
      key and the text; or it does not, and this is the exception thrown.
      Node.js documents one-shot [crypto.sign] for Ed25519 keys, and its
      streaming [Sign] class throws on them. *)
  sign_base64 : result (string -> string -> string);
  (** [createVerify('SHA256')], [update(data)], [end()],
      [verify(publicKey, signature, 'base64')] on a public key of that kind:
      the verdict as a function of the key, the text and the signature, or
      the exception thrown. *)
  verify_base64 : result (string -> string -> string -> bool);
  (** [Number::toString] on the finite numbers that are not integers below
      [2^53]: the shortest decimal that reads back as the same number, in
      positional or exponent notation *)
  Number_digits : float -> string
}.

(** ** Strings of numbers, and [JSON.stringify] *)

Definition decimal (n : Z) : string :=
  NilZero.string_of_uint (N.to_uint (Z.to_N n)).

(** An integer below [2^53] in magnitude prints, in a template literal, as
    its decimal digits.  Lengths are such integers, and so are the sizes
    that a length can equal. *)
Definition Z_toString (n : Z) : string :=
  if (n <? 0)%Z then "-" ++ decimal (- n) else decimal n.

(** The integer [m * 2^e], when it is one. *)
Definition integral_value (m : positive) (e : Z) : option Z :=
  if (0 <=? e)%Z then Some (Z.pos m * 2 ^ e)%Z
  else if (Z.pos m mod 2 ^ (- e) =? 0)%Z then Some (Z.pos m / 2 ^ (- e))%Z
  else None.

Definition dquote : string := String "034"%char "".
Definition backslash : string := String "092"%char "".

Definition hex_digit (n : nat) : string :=
  String (nth n (list_ascii_of_string "0123456789abcdef") "0"%char) "".

(** One code unit of [QuoteJSONString]. *)
Definition quote_char (c : ascii) : string :=
  let n := nat_of_ascii c in
  if Nat.eqb n 34 then backslash ++ dquote
  else if Nat.eqb n 92 then backslash ++ backslash
  else if Nat.eqb n 8 then backslash ++ "b"
  else if Nat.eqb n 12 then backslash ++ "f"
  else if Nat.eqb n 10 then backslash ++ "n"
  else if Nat.eqb n 13 then backslash ++ "r"
  else if Nat.eqb n 9 then backslash ++ "t"
  else if Nat.ltb n 32 then
    backslash ++ "u00" ++ hex_digit (n / 16) ++ hex_digit (n mod 16)
  else String c "".

Definition QuoteJSONString (s : string) : string :=
  dquote ++ String.concat "" (map quote_char (list_ascii_of_string s)) ++ dquote.

(** The values [JSON.stringify] is applied to. *)
Inductive json : Type :=
| JNull
| JBool (b : bool)
| JNumber (x : float)
| JString (s : string)
| JArray (items : list json)
| JObject (members : list (string * json)).

Section WithPlatform.

Context {platform : Platform}.

(** [Number::toString(x)].  Every integer below [2^53] in magnitude is a
    binary64 number, so the decimal integer that reads back as one of them is
    that integer, and its digits are printed.  From [2^53] on, the shortest
    decimal that reads back as the number can be another integer, printed
    with zeros at its end ([2^64] prints as 18446744073709552000): these are
    left to the platform, with the numbers that are not integers. *)
Definition Number_toString (x : float) : string :=
  match Prim2SF x with
  | S754_nan => "NaN"
  | S754_zero _ => "0"
  | S754_infinity false => "Infinity"
  | S754_infinity true => "-Infinity"
  | S754_finite s m e =>
      match integral_value m e with
      | Some n =>
          if (n <? 2 ^ 53)%Z
          then (if s then "-" else "") ++ decimal n
          else Number_digits x
      | None => Number_digits x
      end
  end.

(** [JSON.stringify(v)], without indentation.  A number that is not finite
    is written [null]. *)
Fixpoint JSON_stringify (v : json) : string :=
  match v with
  | JNull => "null"
  | JBool b => if b then "true" else "false"
  | JNumber x => if is_finite x then Number_toString x else "null"
  | JString s => QuoteJSONString s
  | JArray items =>
      "[" ++ String.concat "," (map JSON_stringify items) ++ "]"
  | JObject members =>
      "{" ++ String.concat ","
               (map (fun kv => QuoteJSONString (fst kv) ++ ":"
                               ++ JSON_stringify (snd kv)) members)
          ++ "}"
  end.

Definition json_of_vector (v : vector) : json := JArray (map JNumber v).

(** ** [StateSpaceModel]: the model *)

Record SSMConfig : Type := {
  stateSize : Z;
  inputSize : Z;
  outputSize : Z;
  A : matrix;   (* state transition matrix *)
  B : matrix;   (* input matrix *)
  C : matrix;   (* output matrix *)
  D : matrix    (* feedthrough matrix *)
}.

Record KeyPair : Type := {
  publicKey : string;
  privateKey : string
}.

Record StateTransition : Type := {
  prevState : vector;
  nextState : vector;
  input : vector;
  output : vector;
  timestamp : float;
  hash : string;
  signature : string
}.

Record StateSpaceModel : Type := {
  config : SSMConfig;
  currentState : vector;
  keyPair : KeyPair
}.

(** [new Array(n).fill(0)]: a [RangeError] unless [n] is an array length. *)
Definition new_Array_fill_0 (n : Z) : result vector :=
  if ((0 <=? n) && (n <? 2 ^ 32))%Z
  then Ok (repeat 0%float (Z.to_nat n))
  else Throw RangeError.

(** [new StateSpaceModel(config)]; [keys] is what [generateKeyPair()]
    returns. *)
Definition new_StateSpaceModel (cfg : SSMConfig) (keys : KeyPair)
  : result StateSpaceModel :=
  zeros <- new_Array_fill_0 (stateSize cfg) ;;
  Ok {| config := cfg; currentState := zeros; keyPair := keys |}.

(** The object literal [{prevState, nextState, input, output, timestamp}],
    keys in that order. *)
Definition transitionData (prev next inp out : vector) (ts : float) : json :=
  JObject [ ("prevState", json_of_vector prev);
            ("nextState", json_of_vector next);
            ("input", json_of_vector inp);
            ("output", json_of_vector out);
            ("timestamp", JNumber ts) ].

Definition hashState (data : json) : string :=
  sha256_hex (JSON_stringify data).

(** [signData(data)]: throws what [sign] throws. *)
Definition signData (this : StateSpaceModel) (data : string) : result string :=
  sign <- sign_base64 ;;
  Ok (sign (privateKey (keyPair this)) data).

(** [X.map((row, i) => [row[0] + Y[i][0]])] *)
Definition add_first_columns (X Y : matrix) : result matrix :=
  forM (fun ir =>
          Yi <- defined (array_get Y (fst ir)) ;;
          Ok [ (to_number (array_get (snd ir) 0)
                + to_number (array_get Yi 0))%float ])
       (combine (seq 0 (List.length X)) X).

(** Lines 288-305 of [transition]: everything computed before the assignment
    to [this.currentState]. *)
Definition next_state_and_output (cfg : SSMConfig) (state inp : vector)
  : result (vector * vector) :=
  let stateMatrix := vectorToMatrix state in
  let inputMatrix := vectorToMatrix inp in
  Ax <- matrixMultiply (A cfg) stateMatrix ;;
  Bu <- matrixMultiply (B cfg) inputMatrix ;;
  nextStateMatrix <- add_first_columns Ax Bu ;;
  let nextState := matrixToVector nextStateMatrix in
  Cx <- matrixMultiply (C cfg) stateMatrix ;;
  Du <- matrixMultiply (D cfg) inputMatrix ;;
  outputMatrix <- add_first_columns Cx Du ;;
  let output := matrixToVector outputMatrix in
  Ok (nextState, output).

(** [transition(input)]; [now] is what [Date.now()] returns.  The result is
    paired with the object after the call.  The state is assigned on line
    308, the record signed on line 321: when signing throws, the call throws
    with the new state in place. *)
Definition transition (inp : vector) (now : float) (this : StateSpaceModel)
  : result StateTransition * StateSpaceModel :=
  let cfg := config this in
  if negb (Z.of_nat (List.length inp) =? inputSize cfg)%Z then
    (Throw (Error ("Input size mismatch: expected "
                     ++ Z_toString (inputSize cfg) ++ ", got "
                     ++ Z_toString (Z.of_nat (List.length inp)))),
     this)
  else
    let prev := currentState this in
    match next_state_and_output cfg (currentState this) inp with
    | Throw e => (Throw e, this)
    | Ok (next, out) =>
        let this' := {| config := cfg;
                        currentState := next;
                        keyPair := keyPair this |} in
        let ts := now in
        let h := hashState (transitionData prev next inp out ts) in
        match signData this' h with
        | Throw e => (Throw e, this')
        | Ok sig =>
            (Ok {| prevState := prev; nextState := next; input := inp;
                   output := out; timestamp := ts;
                   hash := h; signature := sig |},
             this')
        end
    end.

(** [verifyTransition(transition)].  The rest pattern [...data] keeps the
    five data fields in the order the record has them.  The body is inside
    [try], and [catch] returns [false]. *)
Definition verifyTransition (t : StateTransition) (this : StateSpaceModel)
  : bool :=
  let data := transitionData (prevState t) (nextState t) (input t)
                             (output t) (timestamp t) in
  let computedHash := hashState data in
  if negb (String.eqb computedHash (hash t)) then false
  else
    match verify_base64 with
    | Ok verify => verify (publicKey (keyPair this)) (hash t) (signature t)
    | Throw _ => false
    end.

Definition getState (this : StateSpaceModel) : vector := currentState this.

Definition reset (this : StateSpaceModel) : result StateSpaceModel :=
  zeros <- new_Array_fill_0 (stateSize (config this)) ;;
  Ok {| config := config this; currentState := zeros;
        keyPair := keyPair this |}.

Definition getPublicKey (this : StateSpaceModel) : string :=
  publicKey (keyPair this).

Definition createDefaultSSMConfig : SSMConfig :=
  {| stateSize := 2;
     inputSize := 1;
     outputSize := 1;
     A := [ [0.95; 0.05];
            [0.05; 0.95] ]%float;
     B := [ [1.0];
            [0.5] ]%float;
     C := [ [1.0; 0.5] ]%float;
     D := [ [0.1] ]%float |}.

(** ** [StateSpaceModel]: which array is which

    A JavaScript array is an object, and every reference to it sees the
    writes made through another.  Here are [transition] and [getState] once
    more, over a heap that holds the contents of the arrays a model, a caller
    or a record refers to, each under its address.  The arrays [transition]
    makes and drops before it returns (the matrices) get no address. *)

Definition address : Type := nat.
Definition heap : Type := list vector.

Definition heap_get (h : heap) (a : address) : option vector := nth_error h a.

(** A new array holding [v]: an array literal, [[...v]], [v.map(f)]. *)
Definition heap_alloc (v : vector) (h : heap) : address * heap :=
  (List.length h, (h ++ [v])%list).

(** The heap after writes into the array at [a] that leave it holding [v]. *)
Fixpoint heap_set (a : address) (v : vector) (h : heap) : heap :=
  match h, a with
  | [], _ => []
  | _ :: rest, O => v :: rest
  | w :: rest, S a' => w :: heap_set a' v rest
  end.

Record StateSpaceModelObject : Type := {
  config_of : SSMConfig;
  currentState_at : address;   (* [this.currentState] *)
  keyPair_of : KeyPair
}.

Record StateTransitionObject : Type := {
  prevState_at : address;
  nextState_at : address;
  input_at : address;
  output_at : address;
  timestamp_of : float;
  hash_of : string;
  signature_of : string
}.

(** [transition(input)], [input] being the array at [inp_at].  The copy
    [[...this.currentState]] of line 288 and the two arrays that
    [matrixToVector] maps out on lines 298 and 305 are new; the record takes
    [nextState] and [input] as they are.  [None] stands for a reference
    without an array, which no program holds. *)
Definition transition_at (inp_at : address) (now : float)
    (this : StateSpaceModelObject) (h : heap)
  : option (result StateTransitionObject * StateSpaceModelObject * heap) :=
  match heap_get h inp_at, heap_get h (currentState_at this) with
  | Some inp, Some state =>
      let cfg := config_of this in
      if negb (Z.of_nat (List.length inp) =? inputSize cfg)%Z then
        Some (Throw (Error ("Input size mismatch: expected "
                              ++ Z_toString (inputSize cfg) ++ ", got "
                              ++ Z_toString (Z.of_nat (List.length inp)))),
              this, h)
      else
        let (prev_at, h1) := heap_alloc state h in
        match next_state_and_output cfg state inp with
        | Throw e => Some (Throw e, this, h1)
        | Ok (next, out) =>
            let (next_at, h2) := heap_alloc next h1 in
            let (out_at, h3) := heap_alloc out h2 in
            let this' := {| config_of := cfg;
                            currentState_at := next_at;
                            keyPair_of := keyPair_of this |} in
            let ts := now in
            let hsh := hashState (transitionData state next inp out ts) in
            match signData {| config := cfg; currentState := next;
                              keyPair := keyPair_of this |} hsh with
            | Throw e => Some (Throw e, this', h3)
            | Ok sig =>
                Some (Ok {| prevState_at := prev_at;
                            nextState_at := next_at;
                            input_at := inp_at;
                            output_at := out_at;
                            timestamp_of := ts;
                            hash_of := hsh;
                            signature_of := sig |},
                      this', h3)
            end
        end
  | _, _ => None
  end.

(** [getState()]: the address of the copy [[...this.currentState]]. *)
Definition getState_at (this : StateSpaceModelObject) (h : heap)
  : option (address * heap) :=
  match heap_get h (currentState_at this) with
  | Some state => Some (heap_alloc state h)
  | None => None
  end.

(** ** [database.ts] and [server.ts]: the audit log *)

Record AuditLog : Type := {
  event_type : string;
  event_data : string;
  event_hash : string;
  prev_log_hash : option string;   (* [string | null] *)
  created_at : Z
}.

(** The [audit_logs] table: its rows in rowid order, which is the order of
    insertion (the key is [AUTOINCREMENT] and no row is ever deleted). *)
Record AxiomDatabase : Type := {
  audit_logs : list AuditLog
}.

Definition createAuditLog (log : AuditLog) (this : AxiomDatabase)
  : Z * AxiomDatabase :=
  let rows := (audit_logs this ++ [log])%list in
  (Z.of_nat (List.length rows), {| audit_logs := rows |}).

(** [ORDER BY created_at DESC LIMIT 1]: a row whose [created_at] is the
    greatest.  SQL leaves open which one when several rows share the
    greatest [created_at]; this takes the one of lowest rowid, the first
    that the index on [created_at DESC] lists.  Of the properties below only
    [same_millisecond_appends_fork] depends on that choice. *)
Fixpoint order_by_created_at_desc_limit_1 (rows : list AuditLog)
  : option AuditLog :=
  match rows with
  | [] => None
  | r :: rest =>
      match order_by_created_at_desc_limit_1 rest with
      | None => Some r
      | Some r' => if (created_at r <? created_at r')%Z then Some r' else Some r
      end
  end.

(** [s || null]: the empty string is falsy. *)
Definition or_null (s : string) : option string :=
  if String.eqb s "" then None else Some s.

(** [prevHash || '']. *)
Definition or_empty (s : option string) : string :=
  match s with
  | Some h => h
  | None => ""
  end.

Definition getLastAuditLogHash (this : AxiomDatabase) : option string :=
  match order_by_created_at_desc_limit_1 (audit_logs this) with
  | Some row => or_null (event_hash row)
  | None => None
  end.

Record AxiomServer : Type := {
  db : AxiomDatabase;
  ssm : StateSpaceModel
}.

(** [logAuditEvent(eventType, eventData)]; [now] is what [Date.now()]
    returns. *)
Definition logAuditEvent (eventType : string) (eventData : json) (now : Z)
    (this : AxiomServer) : AxiomServer :=
  let prevHash := getLastAuditLogHash (db this) in
  let dataString := JSON_stringify eventData in
  let eventHash := sha256_hex (eventType ++ dataString ++ or_empty prevHash) in
  let db' := snd (createAuditLog {| event_type := eventType;
                                    event_data := dataString;
                                    event_hash := eventHash;
                                    prev_log_hash := prevHash;
                                    created_at := now |} (db this)) in
  {| db := db'; ssm := ssm this |}.

End WithPlatform.

(** ** Definitions used to state the properties *)

(** *** The linear algebra of the specification

    These three follow the words of the specification, not the code:
    "standard matrix-vector multiplication (row-by-column dot products ...
    no rounding beyond native floating-point arithmetic)": a dot product
    accumulates its terms from [0], left to right. *)

Definition dot_product (row v : vector) : float :=
  fold_left (fun acc p => (acc + fst p * snd p)%float) (combine row v) 0%float.

Definition matrix_vector_product (M : matrix) (v : vector) : vector :=
  map (fun row => dot_product row v) M.

Definition vector_sum (a b : vector) : vector :=
  map (fun p => (fst p + snd p)%float) (combine a b).

(** [A.currentState + B.input] and [C.currentState + D.input]. *)
Definition spec_nextState (cfg : SSMConfig) (state inp : vector) : vector :=
  vector_sum (matrix_vector_product (A cfg) state)
             (matrix_vector_product (B cfg) inp).

Definition spec_output (cfg : SSMConfig) (state inp : vector) : vector :=
  vector_sum (matrix_vector_product (C cfg) state)
             (matrix_vector_product (D cfg) inp).

(** *** Shapes *)

Definition has_shape (M : matrix) (rows cols : Z) : bool :=
  (Z.of_nat (List.length M) =? rows)%Z
  && forallb (fun row => (Z.of_nat (List.length row) =? cols)%Z) M.

(** [A] is stateSize x stateSize, [B] stateSize x inputSize, [C] outputSize x
    stateSize and [D] outputSize x inputSize. *)
Definition well_shaped (cfg : SSMConfig) : bool :=
  has_shape (A cfg) (stateSize cfg) (stateSize cfg)
  && has_shape (B cfg) (stateSize cfg) (inputSize cfg)
  && has_shape (C cfg) (outputSize cfg) (stateSize cfg)
  && has_shape (D cfg) (outputSize cfg) (inputSize cfg).

Definition positive_sizes (cfg : SSMConfig) : bool :=
  ((1 <=? stateSize cfg) && (1 <=? inputSize cfg) && (1 <=? outputSize cfg))%Z.

(** A model whose matrices have the declared shapes, with no dimension zero,
    and whose state has the declared length. *)
Definition model_ok (this : StateSpaceModel) : bool :=
  well_shaped (config this)
  && positive_sizes (config this)
  && (Z.of_nat (List.length (currentState this)) =? stateSize (config this))%Z.

(** *** Objects and their contents *)

(** The model and the record that an object is, read by contents. *)
Definition model_at (h : heap) (obj : StateSpaceModelObject)
  : option StateSpaceModel :=
  match heap_get h (currentState_at obj) with
  | Some state => Some {| config := config_of obj; currentState := state;
                          keyPair := keyPair_of obj |}
  | None => None
  end.

Definition record_at (h : heap) (r : StateTransitionObject)
  : option StateTransition :=
  match heap_get h (prevState_at r), heap_get h (nextState_at r),
        heap_get h (input_at r), heap_get h (output_at r) with
  | Some prev, Some next, Some inp, Some out =>
      Some {| prevState := prev; nextState := next; input := inp;
              output := out; timestamp := timestamp_of r;
              hash := hash_of r; signature := signature_of r |}
  | _, _, _, _ => None
  end.

(** [h'] has every array of [h], with its contents. *)
Definition extends (h h' : heap) : Prop :=
  forall (a : address) (v : vector), heap_get h a = Some v -> heap_get h' a = Some v.

(** No reference of [h] leads to the array at [a]: it is new. *)
Definition fresh (h : heap) (a : address) : Prop := heap_get h a = None.

(** *** Replays *)

(** What a determinism check compares of one call: the three vectors of the
    record, or the exception. *)
Definition observation (r : result StateTransition)
  : result (vector * vector * vector) :=
  match r with
  | Ok t => Ok (prevState t, nextState t, output t)
  | Throw e => Throw e
  end.

(** The results of calling [transition] on each input in turn; [clock k] is
    what [Date.now()] returns during call number [k]. *)
Fixpoint replay {P : Platform} (clock : nat -> float) (k : nat)
    (inputs : list vector) (this : StateSpaceModel)
  : list (result StateTransition) :=
  match inputs with
  | [] => []
  | inp :: rest =>
      let (r, this') := transition inp (clock k) this in
      r :: replay clock (S k) rest this'
  end.

(** *** Commitments *)

(** The text that is hashed for a record: [JSON.stringify] of its five data
    fields. *)
Definition data_text {P : Platform} (t : StateTransition) : string :=
  JSON_stringify (transitionData (prevState t) (nextState t) (input t)
                                 (output t) (timestamp t)).

(** The record [t'] offered with the hash and signature made for [t]. *)
Definition with_commitment_of (t' t : StateTransition) : StateTransition :=
  {| prevState := prevState t'; nextState := nextState t';
     input := input t'; output := output t'; timestamp := timestamp t';
     hash := hash t; signature := signature t |}.

(** [Sign] and [Verify] take the keys of the pair, and what the private key
    signs the public key verifies, as for a pair that [generateKeyPairSync]
    made. *)
Definition signs_correctly {P : Platform} (keys : KeyPair) : Prop :=
  exists sign verify,
    sign_base64 = Ok sign
    /\ verify_base64 = Ok verify
    /\ forall data : string,
         verify (publicKey keys) data (sign (privateKey keys) data) = true.

(** [c] does not occur in [s]. *)
Fixpoint free_of (c : ascii) (s : string) : bool :=
  match s with
  | EmptyString => true
  | String d rest => negb (Ascii.eqb c d) && free_of c rest
  end.

(** A text that can stand between the delimiters of an array or an object:
    not empty, and without [,], []] or [}]. *)
Definition plain (s : string) : bool :=
  negb (String.eqb s "") && free_of "," s && free_of "]" s && free_of "}" s.

(** What [JSON.stringify] writes for one number. *)
Definition number_text {P : Platform} (x : float) : string :=
  JSON_stringify (JNumber x).

(** The platform's digits are digits: [Number::toString] writes decimal
    digits, a point, an exponent mark and signs, so nothing that delimits. *)
Definition digits_are_plain {P : Platform} : Prop :=
  forall x : float, plain (Number_digits x) = true.

(** [t'] and [t] agree, number by number and field by field, in what
    [JSON.stringify] writes for them. *)
Definition same_number_texts {P : Platform} (t' t : StateTransition) : Prop :=
  map number_text (prevState t') = map number_text (prevState t)
  /\ map number_text (nextState t') = map number_text (nextState t)
  /\ map number_text (input t') = map number_text (input t)
  /\ map number_text (output t') = map number_text (output t)
  /\ number_text (timestamp t') = number_text (timestamp t).

(** Two numbers that [JSON.stringify] writes alike on every platform: the
    same number, two zeros, or two numbers that are not finite. *)
Definition alike (x y : float) : Prop :=
  x = y
  \/ (is_zero x = true /\ is_zero y = true)
  \/ (is_finite x = false /\ is_finite y = false).

Definition alike_records (t' t : StateTransition) : Prop :=
  Forall2 alike (prevState t') (prevState t)
  /\ Forall2 alike (nextState t') (nextState t)
  /\ Forall2 alike (input t') (input t)
  /\ Forall2 alike (output t') (output t)
  /\ alike (timestamp t') (timestamp t).

(** The four ways [JSON.stringify] writes a number: [null]; [0]; the digits
    of an integer below [2^53], with its sign; the digits that the platform
    gives. *)
Inductive number_class : Type :=
| NonFinite
| Zero
| SmallInteger (negative : bool) (magnitude : Z)
| Other.

Definition class_of (x : float) : number_class :=
  match Prim2SF x with
  | S754_nan | S754_infinity _ => NonFinite
  | S754_zero _ => Zero
  | S754_finite s m e =>
      match integral_value m e with
      | Some n => if (n <? 2 ^ 53)%Z then SmallInteger s n else Other
      | None => Other
      end
  end.

(** The numbers whose digits [Number_toString] asks the platform for: the
    finite ones other than zero that are not integers below [2^53]. *)
Definition digits_asked (x : float) : bool :=
  match class_of x with
  | Other => true
  | _ => false
  end.

(** The platform's digits tell numbers apart: the shortest decimal that reads
    back as a number is that of no other number; it is not [null]; and it is
    not the decimal of an integer below [2^53], which would read back as that
    integer. *)
Definition digits_distinguish {P : Platform} : Prop :=
  (forall x y : float,
      digits_asked x = true -> digits_asked y = true ->
      Number_digits x = Number_digits y -> x = y)
  /\ (forall x : float, digits_asked x = true -> Number_digits x <> "null")
  /\ (forall (x : float) (s : bool) (n : Z),
        digits_asked x = true -> (0 <= n < 2 ^ 53)%Z ->
        Number_digits x <> (if s then "-" else "") ++ decimal n).

(** The two texts are not a collision of the hash. *)
Definition no_collision {P : Platform} (s1 s2 : string) : Prop :=
  sha256_hex s1 = sha256_hex s2 -> s1 = s2.

(** *** Numbers that are not finite *)

Definition all_non_finite (v : vector) : Prop :=
  Forall (fun x => is_finite x = false) v.

Definition some_non_finite (v : vector) : Prop :=
  Exists (fun x => is_finite x = false) v.

(** *** Chains *)

(** Each entry after the first names the hash of the entry before it. *)
Fixpoint linked (rows : list AuditLog) : Prop :=
  match rows with
  | [] => True
  | r :: rest =>
      match rest with
      | [] => True
      | r' :: _ => prev_log_hash r' = Some (event_hash r) /\ linked rest
      end
  end.

(** [created_at] grows strictly along the rows. *)
Fixpoint strictly_increasing (rows : list AuditLog) : Prop :=
  match rows with
  | [] => True
  | r :: rest =>
      match rest with
      | [] => True
      | r' :: _ => (created_at r < created_at r')%Z /\ strictly_increasing rest
      end
  end.

(** The row inserted last. *)
Definition last_row (rows : list AuditLog) : option AuditLog :=
  hd_error (rev rows).

(** The server after logging the events of [calls], oldest first; a call is
    [(eventType, eventData, now)]. *)
Definition log_all {P : Platform} (calls : list (string * json * Z))
    (this : AxiomServer) : AxiomServer :=
  fold_left (fun s c => logAuditEvent (fst (fst c)) (snd (fst c)) (snd c) s)
            calls this.

(** Each call of [calls] reads a clock value greater than the one before
    it, the first one greater than [t] if there is a [t]. *)
Fixpoint clock_increases_after (t : option Z) (calls : list (string * json * Z))
  : Prop :=
  match calls with
  | [] => True
  | c :: rest =>
      match t with
      | Some t0 => (t0 < snd c)%Z
      | None => True
      end
      /\ clock_increases_after (Some (snd c)) rest
  end.

(** *** A stand-in platform for concrete runs

    Its hash keeps its whole argument, so two different texts never collide;
    its [Sign] and [Verify] take the model's keys, and a signature is valid
    for the key it names and for no other; a number that is not a small
    integer prints as its binary mantissa and exponent. *)

Definition test_digits (x : float) : string :=
  match Prim2SF x with
  | S754_finite s m e =>
      (if s then "-" else "") ++ decimal (Z.pos m) ++ "p" ++ Z_toString e
  | _ => "?"
  end.

Definition test_platform : Platform :=
  {| sha256_hex := fun s => "sha256:" ++ s;
     sign_base64 := Ok (fun key data => "signed:" ++ key ++ ":" ++ data);
     verify_base64 := Ok (fun key data sig =>
                            String.eqb sig ("signed:" ++ key ++ ":" ++ data));
     Number_digits := test_digits |}.

(** The same platform with [Sign] and [Verify] classes that throw on the
    model's keys, as those of Node.js do.  The message stands for the one
    that OpenSSL gives. *)
Definition unsupported : exn := Error "operation not supported for this keytype".

Definition node_like_platform : Platform :=
  {| sha256_hex := fun s => "sha256:" ++ s;
     sign_base64 := Throw unsupported;
     verify_base64 := Throw unsupported;
     Number_digits := test_digits |}.

Definition test_keys : KeyPair :=
  {| publicKey := "test-key"; privateKey := "test-key" |}.

(** The default model as constructed. *)
Definition default_model : StateSpaceModel :=
  {| config := createDefaultSSMConfig;
     currentState := [0; 0]%float;
     keyPair := test_keys |}.

(** The same model as an object, its state at address 0, next to an array
    [[1]] that a caller holds at address 1. *)
Definition default_heap : heap := [ [0; 0]; [1] ]%float.

Definition default_object : StateSpaceModelObject :=
  {| config_of := createDefaultSSMConfig;
     currentState_at := 0;
     keyPair_of := test_keys |}.

(** The default configuration with a [B] of one row instead of two. *)
Definition short_B_config : SSMConfig :=
  {| stateSize := 2; inputSize := 1; outputSize := 1;
     A := A createDefaultSSMConfig;
     B := [ [1.0] ]%float;
     C := C createDefaultSSMConfig;
     D := D createDefaultSSMConfig |}.

(** Configurations with the declared shapes and one size zero: no output,
    no input, no state. *)
Definition no_output_config : SSMConfig :=
  {| stateSize := 1; inputSize := 1; outputSize := 0;
     A := [ [1.0] ]%float;
     B := [ [1.0] ]%float;
     C := [];
     D := [] |}.

Definition no_input_config : SSMConfig :=
  {| stateSize := 1; inputSize := 0; outputSize := 1;
     A := [ [1.0] ]%float;
     B := [ [] ];
     C := [ [1.0] ]%float;
     D := [ [] ] |}.

Definition no_state_config : SSMConfig :=
  {| stateSize := 0; inputSize := 1; outputSize := 1;
     A := [];
     B := [];
     C := [ [] ];
     D := [ [1.0] ]%float |}.

Definition empty_server : AxiomServer :=
  {| db := {| audit_logs := [] |}; ssm := default_model |}.

(** ** Definitions used to state the further properties *)

(** *** Matrix products in general *)

(** Whether [matrixMultiply(A, B)] returns: both matrices have a first row,
    and either the first row of [B] is empty, so that no entry is computed,
    or [B] has a row for every column that the first row of [A] counts. *)
Definition can_multiply (A B : matrix) : bool :=
  match A, B with
  | A0 :: _, B0 :: _ =>
      Nat.eqb (List.length B0) 0 || Nat.leb (List.length A0) (List.length B)
  | _, _ => false
  end.

(** Column [j] of [B], an entry that a row lacks read as [NaN]. *)
Definition matrix_column (B : matrix) (j : nat) : vector :=
  map (fun row => to_number (array_get row j)) B.

(** The row-by-column product, with as many columns as the first row of [B]
    has entries. *)
Definition matrix_product (A B : matrix) : matrix :=
  map (fun row =>
         map (fun j => dot_product row (matrix_column B j))
             (seq 0 (List.length (hd [] B))))
      A.

(** *** Sequences of calls *)

(** The model after calling [transition] on each input in turn. *)
Fixpoint after_replay {P : Platform} (clock : nat -> float) (k : nat)
    (inputs : list vector) (this : StateSpaceModel) : StateSpaceModel :=
  match inputs with
  | [] => this
  | inp :: rest =>
      after_replay clock (S k) rest (snd (transition inp (clock k) this))
  end.

(** The records of the calls that returned. *)
Fixpoint successes (results : list (result StateTransition))
  : list StateTransition :=
  match results with
  | [] => []
  | Ok t :: rest => t :: successes rest
  | Throw _ :: rest => successes rest
  end.

(** Each record starts from the state the one before it reached, the first
    from [start]. *)
Fixpoint chained (start : vector) (records : list StateTransition) : Prop :=
  match records with
  | [] => True
  | t :: rest => prevState t = start /\ chained (nextState t) rest
  end.

(** The state the last record reached, [start] if there is none. *)
Fixpoint reached (start : vector) (records : list StateTransition) : vector :=
  match records with
  | [] => start
  | t :: rest => reached (nextState t) rest
  end.

Definition returned {T : Type} (r : result T) : bool :=
  match r with
  | Ok _ => true
  | Throw _ => false
  end.

(** *** Entries of the audit log *)

(** The hash of the entry is the hash of its own three fields. *)
Definition entry_consistent {P : Platform} (e : AuditLog) : Prop :=
  event_hash e
  = sha256_hex (event_type e ++ event_data e ++ or_empty (prev_log_hash e)).

(** The entry [e], written after the rows [pre], names the hash of a newest
    row among them, or nothing if there is none. *)
Definition names_a_newest_row (pre : list AuditLog) (e : AuditLog) : Prop :=
  (pre = [] /\ prev_log_hash e = None)
  \/ (exists r, In r pre
                /\ (forall x, In x pre -> (created_at x <= created_at r)%Z)
                /\ prev_log_hash e = Some (event_hash r)).

(** * Properties *)

(** ** [transition]: rejection of a wrong input length, and replay *)

Section TransitionBasics.

Context {platform : Platform}.

Lemma transition_keeps_config (inp : vector) (now : float)
    (this : StateSpaceModel) :
  config (snd (transition inp now this)) = config this
  /\ keyPair (snd (transition inp now this)) = keyPair this.
Proof.
  unfold transition, signData.
  destruct (negb _); [now split|].
  destruct (next_state_and_output _ _ _) as [[next out]|e]; [|now split].
  destruct sign_base64; now split.
Qed.

(** X14. A call throws in the length check, in the arithmetic, or in
    signing.  The first two come before the assignment to
    [this.currentState], and such a call leaves the object as it was; signing
    comes after it, and a call in which signing throws leaves the object
    with the next state in place. *)
Lemma transition_throw_keeps_state (inp : vector) (now : float)
    (this : StateSpaceModel) (e : exn) :
  fst (transition inp now this) = Throw e ->
  snd (transition inp now this) = this
  \/ (sign_base64 = Throw e
      /\ exists next out,
           next_state_and_output (config this) (currentState this) inp
           = Ok (next, out)
           /\ snd (transition inp now this)
              = {| config := config this; currentState := next;
                   keyPair := keyPair this |}).
Proof.
  unfold transition, signData.
  destruct (negb _); [now left|].
  destruct (next_state_and_output _ _ _) as [[next out]|e']; [|now left].
  destruct sign_base64 as [sign|e']; cbn; [discriminate|].
  intros [= ->]. right. split; [reflexivity|].
  now exists next, out.
Qed.

Lemma transition_mismatch (inp : vector) (now : float)
    (this : StateSpaceModel) :
  Z.of_nat (List.length inp) <> inputSize (config this) ->
  transition inp now this
  = (Throw (Error ("Input size mismatch: expected "
                     ++ Z_toString (inputSize (config this)) ++ ", got "
                     ++ Z_toString (Z.of_nat (List.length inp)))),
     this).
Proof.
  intros Hlen. unfold transition.
  destruct (Z.eqb_spec (Z.of_nat (List.length inp)) (inputSize (config this)))
    as [Heq|_]; [contradiction|reflexivity].
Qed.

(** C6. For every model and every input vector whose length differs from the
    configured [inputSize], [transition] throws the input-size-mismatch error
    (the code's [Error] with the message "Input size mismatch: expected
    <inputSize>, got <length>") and the model is unchanged by the call, so
    [getState] returns the same vector before and after. *)
Theorem transition_wrong_length_throws (inp : vector) (now : float)
    (this : StateSpaceModel) :
  Z.of_nat (List.length inp) <> inputSize (config this) ->
  transition inp now this
  = (Throw (Error ("Input size mismatch: expected "
                     ++ Z_toString (inputSize (config this)) ++ ", got "
                     ++ Z_toString (Z.of_nat (List.length inp)))),
     this)
  /\ getState (snd (transition inp now this)) = getState this.
Proof.
  intros Hlen.
  pose proof (transition_mismatch inp now this Hlen) as Hcall.
  split; [exact Hcall|].
  now rewrite Hcall.
Qed.

(** The three observed vectors of a call or the exception it throws, and the
    state it leaves, depend on the configuration, the state and the input
    only: not on the clock and not on the key pair.  (Whether signing throws
    is a matter of the kind of key, which is the same for every pair.) *)
Lemma transition_observation_independent (inp : vector) (now1 now2 : float)
    (this1 this2 : StateSpaceModel) :
  config this1 = config this2 ->
  currentState this1 = currentState this2 ->
  observation (fst (transition inp now1 this1))
  = observation (fst (transition inp now2 this2))
  /\ config (snd (transition inp now1 this1))
     = config (snd (transition inp now2 this2))
  /\ currentState (snd (transition inp now1 this1))
     = currentState (snd (transition inp now2 this2)).
Proof.
  intros Hcfg Hst.
  unfold transition.
  rewrite <- Hcfg, <- Hst.
  unfold signData.
  destruct (negb _); cbn; [auto|].
  destruct (next_state_and_output _ _ _) as [[next out]|e]; cbn; [|auto].
  destruct sign_base64; cbn; auto.
Qed.

(** C2. For every fixed configuration, fixed initial state and fixed finite
    sequence of input vectors, two independent replays of the transition
    sequence, each with its own key pair and its own clock readings, produce
    identical sequences of (previousState, nextState, output) vectors (and
    throw at the same calls, if any does); the timestamp, hash and signature
    fields are not compared.  It holds for every input sequence, so in
    particular for the valid ones. *)
Theorem replay_deterministic (cfg : SSMConfig) (initial : vector)
    (inputs : list vector) (keys1 keys2 : KeyPair)
    (clock1 clock2 : nat -> float) :
  map observation
      (replay clock1 0 inputs
              {| config := cfg; currentState := initial; keyPair := keys1 |})
  = map observation
        (replay clock2 0 inputs
                {| config := cfg; currentState := initial; keyPair := keys2 |}).
Proof.
  set (this1 := {| config := cfg; currentState := initial; keyPair := keys1 |}).
  set (this2 := {| config := cfg; currentState := initial; keyPair := keys2 |}).
  assert (Hcfg : config this1 = config this2) by reflexivity.
  assert (Hst : currentState this1 = currentState this2) by reflexivity.
  clearbody this1 this2.
  generalize 0 at 1 as k1. generalize 0 as k2.
  revert this1 this2 Hcfg Hst.
  induction inputs as [|inp rest IH]; intros this1 this2 Hcfg Hst k2 k1;
    [reflexivity|].
  cbn [replay].
  destruct (transition_observation_independent inp (clock1 k1) (clock2 k2)
              this1 this2 Hcfg Hst) as (Hobs & Hcfg' & Hst').
  destruct (transition inp (clock1 k1) this1) as [r1 next1].
  destruct (transition inp (clock2 k2) this2) as [r2 next2].
  cbn [fst snd] in Hobs, Hcfg', Hst'.
  cbn [map]. rewrite Hobs. f_equal.
  now apply IH.
Qed.

End TransitionBasics.

Lemma transition_wrong_length_throws_witness :
  Z.of_nat (List.length [1; 2]%float) <> inputSize (config default_model)
  /\ (@transition test_platform [1; 2]%float 1700000000000%float default_model
      = (Throw (Error "Input size mismatch: expected 1, got 2"), default_model)
      /\ getState (snd (@transition test_platform [1; 2]%float
                                    1700000000000%float default_model))
         = [0; 0]%float).
Proof.
  split.
  - cbn. lia.
  - apply (@transition_wrong_length_throws test_platform [1; 2]%float
             1700000000000%float default_model).
    cbn. lia.
Defined.

(** ** [transition] computes the linear recurrence *)

(** *** Loops over an index range that follow a list *)

Lemma forM_seq_map {T U : Type} (l : list T) (g : T -> U) :
  forall (s : nat) (f : nat -> result U),
    (forall i x, nth_error l i = Some x -> f (s + i) = Ok (g x)) ->
    forM f (seq s (List.length l)) = Ok (map g l).
Proof.
  induction l as [|x l IH]; intros s f Hf; [reflexivity|].
  cbn [List.length seq forM map].
  rewrite <- (Nat.add_0_r s) at 1.
  rewrite (Hf 0 x eq_refl). cbn [bind].
  rewrite (IH (S s) f).
  - reflexivity.
  - intros i y Hy. replace (S s + i) with (s + S i) by lia. now apply Hf.
Qed.

Lemma foldM_seq_fold_left {T U : Type} (l : list T) (g : U -> T -> U) :
  forall (s : nat) (body : U -> nat -> result U) (acc : U),
    (forall a i x, nth_error l i = Some x -> body a (s + i) = Ok (g a x)) ->
    foldM body (seq s (List.length l)) acc = Ok (fold_left g l acc).
Proof.
  induction l as [|x l IH]; intros s body acc Hbody; [reflexivity|].
  cbn [List.length seq foldM fold_left].
  rewrite <- (Nat.add_0_r s) at 1.
  rewrite (Hbody acc 0 x eq_refl). cbn [bind].
  apply IH.
  intros a i y Hy. replace (S s + i) with (s + S i) by lia. now apply Hbody.
Qed.

Lemma nth_error_combine {T U : Type} (l : list T) :
  forall (l' : list U) (i : nat) (x : T) (y : U),
    nth_error (combine l l') i = Some (x, y) ->
    nth_error l i = Some x /\ nth_error l' i = Some y.
Proof.
  induction l as [|a l IH]; intros [|b l'] [|i] x y H; cbn in *;
    try discriminate.
  - now inversion H.
  - now apply IH.
Qed.

Lemma vectorToMatrix_get (v : vector) (i : nat) (x : float) :
  nth_error v i = Some x -> array_get (vectorToMatrix v) i = Some [x].
Proof.
  intros H. unfold array_get, vectorToMatrix.
  now rewrite nth_error_map, H.
Qed.

Lemma matrixToVector_vectorToMatrix (v : vector) :
  matrixToVector (vectorToMatrix v) = v.
Proof.
  unfold matrixToVector, vectorToMatrix.
  rewrite map_map. cbn. apply map_id.
Qed.

(** *** [matrixMultiply] on a column *)

(** On a matrix of at least one row, all rows as long as the non-empty
    vector, [matrixMultiply] returns the column of the row-by-column dot
    products. *)
Lemma matrixMultiply_column (M : matrix) (v : vector) :
  M <> [] ->
  v <> [] ->
  (forall row, In row M -> List.length row = List.length v) ->
  matrixMultiply M (vectorToMatrix v)
  = Ok (vectorToMatrix (matrix_vector_product M v)).
Proof.
  intros HM Hv Hrows.
  unfold matrixMultiply.
  destruct M as [|row0 M']; [contradiction|].
  destruct v as [|x0 v']; [contradiction|].
  set (M := row0 :: M') in *. set (v := x0 :: v') in *.
  change (array_get M 0) with (Some row0).
  change (array_get (vectorToMatrix v) 0) with (Some [x0]).
  cbn [defined bind List.length].
  unfold vectorToMatrix at 2, matrix_vector_product. rewrite map_map.
  apply forM_seq_map.
  intros i row Hrow. cbn [Nat.add seq forM].
  assert (Hin : In row M) by (eapply nth_error_In; eassumption).
  assert (Hlen : List.length row0 = List.length (combine row v)).
  { rewrite length_combine, (Hrows row Hin), (Hrows row0 (or_introl eq_refl)).
    now rewrite Nat.min_id. }
  rewrite Hlen.
  rewrite (foldM_seq_fold_left (combine row v)
             (fun acc p => (acc + fst p * snd p)%float)).
  - reflexivity.
  - intros a k [y x] Hk. cbn [Nat.add fst snd].
    apply nth_error_combine in Hk. destruct Hk as [Hy Hx].
    unfold array_get at 1. rewrite Hrow. cbn [defined bind].
    rewrite (vectorToMatrix_get v k x Hx). cbn [defined bind].
    unfold array_get. rewrite Hy.
    reflexivity.
Qed.

(** *** Adding the two columns *)

Lemma add_first_columns_from (xs : vector) :
  forall (ys pre : vector),
    List.length xs <= List.length ys ->
    forM (fun ir : nat * list float =>
            Yi <- defined (array_get (vectorToMatrix (pre ++ ys)%list) (fst ir)) ;;
            Ok [ (to_number (array_get (snd ir) 0)
                  + to_number (array_get Yi 0))%float ])
         (combine (seq (List.length pre) (List.length xs)) (vectorToMatrix xs))
    = Ok (vectorToMatrix (vector_sum xs ys)).
Proof.
  induction xs as [|x xs IH]; intros ys pre Hlen; [reflexivity|].
  destruct ys as [|y ys]; [cbn in Hlen; lia|].
  cbn [List.length seq vectorToMatrix map combine forM fst snd].
  rewrite (vectorToMatrix_get (pre ++ y :: ys)%list (List.length pre) y).
  2:{ rewrite nth_error_app2 by lia. now rewrite Nat.sub_diag. }
  cbn [defined bind].
  specialize (IH ys (pre ++ [y])%list).
  rewrite <- app_assoc in IH. cbn [app] in IH.
  rewrite length_app in IH. cbn [List.length] in IH.
  rewrite Nat.add_1_r in IH.
  unfold vectorToMatrix in IH at 2.
  rewrite IH by (cbn in Hlen; lia).
  reflexivity.
Qed.

Lemma add_first_columns_columns (xs ys : vector) :
  List.length xs <= List.length ys ->
  add_first_columns (vectorToMatrix xs) (vectorToMatrix ys)
  = Ok (vectorToMatrix (vector_sum xs ys)).
Proof.
  intros Hlen. unfold add_first_columns.
  replace (List.length (vectorToMatrix xs)) with (List.length xs)
    by (symmetry; apply length_map).
  exact (add_first_columns_from xs ys [] Hlen).
Qed.

(** *** The step on a well-shaped model *)

Lemma has_shape_spec (M : matrix) (rows cols : Z) :
  has_shape M rows cols = true ->
  Z.of_nat (List.length M) = rows
  /\ forall row, In row M -> Z.of_nat (List.length row) = cols.
Proof.
  unfold has_shape. intros H.
  apply andb_true_iff in H. destruct H as [Hrows Hcols].
  split; [now apply Z.eqb_eq|].
  intros row Hin. rewrite forallb_forall in Hcols.
  now apply Z.eqb_eq, Hcols.
Qed.

Lemma shaped_times_column (M : matrix) (v : vector) (rows cols : Z) :
  has_shape M rows cols = true ->
  (1 <= rows)%Z ->
  (1 <= cols)%Z ->
  Z.of_nat (List.length v) = cols ->
  matrixMultiply M (vectorToMatrix v)
  = Ok (vectorToMatrix (matrix_vector_product M v))
  /\ Z.of_nat (List.length (matrix_vector_product M v)) = rows.
Proof.
  intros Hshape Hrows Hcols Hv.
  apply has_shape_spec in Hshape. destruct Hshape as [HlenM Hrow].
  split.
  - apply matrixMultiply_column.
    + intros ->. cbn in HlenM. lia.
    + intros ->. cbn in Hv. lia.
    + intros row Hin. apply Nat2Z.inj. rewrite (Hrow row Hin). now symmetry.
  - unfold matrix_vector_product. now rewrite length_map.
Qed.

Lemma vector_sum_length (a b : vector) :
  List.length a = List.length b ->
  List.length (vector_sum a b) = List.length a.
Proof.
  intros H. unfold vector_sum.
  rewrite length_map, length_combine, <- H. apply Nat.min_id.
Qed.

Lemma next_state_and_output_spec (cfg : SSMConfig) (state inp : vector) :
  well_shaped cfg = true ->
  positive_sizes cfg = true ->
  Z.of_nat (List.length state) = stateSize cfg ->
  Z.of_nat (List.length inp) = inputSize cfg ->
  next_state_and_output cfg state inp
  = Ok (spec_nextState cfg state inp, spec_output cfg state inp)
  /\ Z.of_nat (List.length (spec_nextState cfg state inp)) = stateSize cfg.
Proof.
  intros Hshape Hpos Hstate Hinp.
  unfold well_shaped in Hshape. unfold positive_sizes in Hpos.
  rewrite !andb_true_iff in Hshape. rewrite !andb_true_iff, !Z.leb_le in Hpos.
  destruct Hshape as [[[HsA HsB] HsC] HsD]. destruct Hpos as [[Hn Hm] Hp].
  destruct (shaped_times_column (A cfg) state (stateSize cfg) (stateSize cfg))
    as [HA HlenA]; try assumption.
  destruct (shaped_times_column (B cfg) inp (stateSize cfg) (inputSize cfg))
    as [HB HlenB]; try assumption.
  destruct (shaped_times_column (C cfg) state (outputSize cfg) (stateSize cfg))
    as [HC HlenC]; try assumption.
  destruct (shaped_times_column (D cfg) inp (outputSize cfg) (inputSize cfg))
    as [HD HlenD]; try assumption.
  split.
  - unfold next_state_and_output.
    rewrite HA, HB. cbn [bind].
    rewrite add_first_columns_columns by lia. cbn [bind].
    rewrite HC, HD. cbn [bind].
    rewrite add_first_columns_columns by lia. cbn [bind].
    now rewrite !matrixToVector_vectorToMatrix.
  - unfold spec_nextState. rewrite vector_sum_length; lia.
Qed.

Section LinearStep.

Context {platform : Platform}.

(** A call on a model of the declared shapes, in one equation: the state is
    replaced, and the call returns the record or throws what signing
    throws. *)
Lemma transition_on_model_ok (inp : vector) (now : float)
    (this : StateSpaceModel) :
  model_ok this = true ->
  Z.of_nat (List.length inp) = inputSize (config this) ->
  let next := spec_nextState (config this) (currentState this) inp in
  let out := spec_output (config this) (currentState this) inp in
  let h := hashState (transitionData (currentState this) next inp out now) in
  transition inp now this
  = (match sign_base64 with
     | Ok sign =>
         Ok {| prevState := currentState this;
               nextState := next;
               input := inp;
               output := out;
               timestamp := now;
               hash := h;
               signature := sign (privateKey (keyPair this)) h |}
     | Throw e => Throw e
     end,
     {| config := config this;
        currentState := next;
        keyPair := keyPair this |}).
Proof.
  intros Hok Hinp next out h.
  unfold model_ok in Hok. rewrite !andb_true_iff, Z.eqb_eq in Hok.
  destruct Hok as [[Hshape Hpos] Hstate].
  destruct (next_state_and_output_spec (config this) (currentState this) inp)
    as [Hstep _]; try assumption.
  unfold transition, signData.
  rewrite Hinp, Z.eqb_refl. cbn [negb].
  rewrite Hstep.
  now destruct sign_base64.
Qed.

(** *** The heap *)

Lemma heap_get_alloc (v : vector) (h : heap) :
  heap_get (snd (heap_alloc v h)) (fst (heap_alloc v h)) = Some v.
Proof.
  unfold heap_get, heap_alloc. cbn [fst snd].
  rewrite nth_error_app2 by lia. now rewrite Nat.sub_diag.
Qed.

Lemma heap_alloc_fresh (v : vector) (h : heap) :
  fresh h (fst (heap_alloc v h)).
Proof.
  unfold fresh, heap_get, heap_alloc. cbn [fst].
  apply nth_error_None. lia.
Qed.

Lemma heap_alloc_extends (v : vector) (h : heap) :
  extends h (snd (heap_alloc v h)).
Proof.
  intros a w Ha. unfold heap_get, heap_alloc in *. cbn [snd].
  rewrite nth_error_app1; [exact Ha|].
  apply nth_error_Some. now rewrite Ha.
Qed.

Lemma extends_trans (h1 h2 h3 : heap) :
  extends h1 h2 -> extends h2 h3 -> extends h1 h3.
Proof.
  intros H12 H23 a v Ha. now apply H23, H12.
Qed.

Lemma heap_get_set_other (a b : address) (v : vector) (h : heap) :
  a <> b -> heap_get (heap_set a v h) b = heap_get h b.
Proof.
  unfold heap_get. revert a b.
  induction h as [|w h IH]; intros [|a] [|b] Hab; cbn;
    try reflexivity; [contradiction|].
  apply IH. congruence.
Qed.

(** The two embeddings of [transition] agree, and the one over the heap
    tells which arrays of the record are new: [prevState] and [output] are,
    [nextState] is new to the caller but is the array the model keeps as its
    state, and [input] is the caller's. *)
Lemma transition_at_refines (inp_at : address) (now : float)
    (obj : StateSpaceModelObject) (h : heap)
    (inp : vector) (this : StateSpaceModel) :
  heap_get h inp_at = Some inp ->
  model_at h obj = Some this ->
  exists (r : result StateTransitionObject) (obj' : StateSpaceModelObject)
         (h' : heap),
    transition_at inp_at now obj h = Some (r, obj', h')
    /\ model_at h' obj' = Some (snd (transition inp now this))
    /\ extends h h'
    /\ match r with
       | Throw e => fst (transition inp now this) = Throw e
       | Ok ro =>
           exists t : StateTransition,
             fst (transition inp now this) = Ok t
             /\ record_at h' ro = Some t
             /\ input_at ro = inp_at
             /\ nextState_at ro = currentState_at obj'
             /\ fresh h (prevState_at ro)
             /\ fresh h (nextState_at ro)
             /\ fresh h (output_at ro)
             /\ prevState_at ro <> nextState_at ro
             /\ prevState_at ro <> output_at ro
             /\ nextState_at ro <> output_at ro
       end.
Proof.
  intros Hinp Hobj. unfold model_at in Hobj.
  destruct (heap_get h (currentState_at obj)) as [state|] eqn:Hstate;
    [|discriminate].
  injection Hobj as <-.
  unfold transition_at, transition. rewrite Hinp, Hstate.
  cbn [config currentState keyPair].
  destruct (negb _).
  { eexists _, _, _. split; [reflexivity|]. cbn [fst snd].
    split; [unfold model_at; now rewrite Hstate|].
    split; [now intros a v Ha|reflexivity]. }
  pose proof (heap_alloc_extends state h) as He1.
  destruct (heap_alloc state h) as [prev_at h1] eqn:E1.
  assert (Hp : prev_at = List.length h)
    by (unfold heap_alloc in E1; now inversion E1).
  assert (Hh1 : h1 = (h ++ [state])%list)
    by (unfold heap_alloc in E1; now inversion E1).
  cbn [snd] in He1.
  destruct (next_state_and_output _ _ _) as [[next out]|e].
  2:{ eexists _, _, _. split; [reflexivity|]. cbn [fst snd].
      split; [unfold model_at; now rewrite (He1 _ _ Hstate)|].
      split; [exact He1|reflexivity]. }
  pose proof (heap_alloc_extends next h1) as He2.
  pose proof (heap_get_alloc next h1) as Hg2.
  destruct (heap_alloc next h1) as [next_at h2] eqn:E2.
  assert (Hn : next_at = List.length h1)
    by (unfold heap_alloc in E2; now inversion E2).
  cbn [fst snd] in He2, Hg2.
  pose proof (heap_alloc_extends out h2) as He3.
  pose proof (heap_get_alloc out h2) as Hg3.
  destruct (heap_alloc out h2) as [out_at h3] eqn:E3.
  assert (Ho : out_at = List.length h2)
    by (unfold heap_alloc in E3; now inversion E3).
  assert (Hh2 : h2 = (h1 ++ [next])%list)
    by (unfold heap_alloc in E2; now inversion E2).
  cbn [fst snd] in He3, Hg3.
  assert (Hg1 : heap_get h1 prev_at = Some state).
  { pose proof (heap_get_alloc state h) as Hg. now rewrite E1 in Hg. }
  assert (Hlen1 : List.length h1 = S (List.length h))
    by (rewrite Hh1, length_app; cbn; lia).
  assert (Hlen2 : List.length h2 = S (S (List.length h)))
    by (rewrite Hh2, length_app; cbn; lia).
  assert (Hext : extends h h3)
    by (eapply extends_trans; [exact He1|];
        eapply extends_trans; [exact He2|exact He3]).
  assert (Hmodel : model_at h3
                     {| config_of := config_of obj;
                        currentState_at := next_at;
                        keyPair_of := keyPair_of obj |}
                   = Some {| config := config_of obj; currentState := next;
                             keyPair := keyPair_of obj |}).
  { unfold model_at. cbn [currentState_at config_of keyPair_of].
    now rewrite (He3 _ _ Hg2). }
  unfold signData. cbn [keyPair].
  destruct sign_base64 as [sign|e]; cbn [bind].
  - eexists _, _, _. split; [reflexivity|]. cbn [fst snd].
    split; [exact Hmodel|]. split; [exact Hext|].
    eexists. split; [reflexivity|].
    cbn [prevState_at nextState_at input_at output_at currentState_at].
    split.
    { unfold record_at.
      cbn [prevState_at nextState_at input_at output_at timestamp_of
           hash_of signature_of].
      rewrite (He3 _ _ (He2 _ _ Hg1)), (He3 _ _ Hg2), (Hext _ _ Hinp), Hg3.
      reflexivity. }
    unfold fresh, heap_get.
    repeat split; try (apply nth_error_None; lia); lia.
  - eexists _, _, _. split; [reflexivity|]. cbn [fst snd].
    split; [exact Hmodel|]. split; [exact Hext|reflexivity].
Qed.

(** C1 (as amended). For every model whose four matrices have the declared
    shapes, whose three sizes are at least 1 and whose state has length
    [stateSize], and for every input vector of length [inputSize]:
    [transition] computes [nextState = A.state + B.input] and
    [output = C.state + D.input] by row-by-column dot products, from the
    state read before the call, and sets the model's state to that
    [nextState], so that [getState] returns it afterwards; then it signs.
    If signing returns, the call returns a record of the previous state, the
    next state, the input, the output, the clock reading, the hash and the
    signature; if signing throws, the call throws the same exception, with
    the state already replaced.  Of the record's four arrays [prevState] and
    [output] are new ones; [nextState] is no copy but the very array that is
    now the model's state; and [input] is no copy but the caller's array. *)
Theorem transition_computes_linear_step (inp : vector) (now : float)
    (this : StateSpaceModel)
    (h : heap) (inp_at : address) (obj : StateSpaceModelObject) :
  model_ok this = true ->
  Z.of_nat (List.length inp) = inputSize (config this) ->
  heap_get h inp_at = Some inp ->
  model_at h obj = Some this ->
  let next := spec_nextState (config this) (currentState this) inp in
  let out := spec_output (config this) (currentState this) inp in
  let hsh := hashState (transitionData (currentState this) next inp out now) in
  let this' := {| config := config this; currentState := next;
                  keyPair := keyPair this |} in
  snd (transition inp now this) = this'
  /\ getState (snd (transition inp now this)) = next
  /\ (forall sign : string -> string -> string,
        sign_base64 = Ok sign ->
        fst (transition inp now this)
        = Ok {| prevState := currentState this;
                nextState := next;
                input := inp;
                output := out;
                timestamp := now;
                hash := hsh;
                signature := sign (privateKey (keyPair this)) hsh |})
  /\ (forall e : exn,
        sign_base64 = Throw e -> fst (transition inp now this) = Throw e)
  /\ exists (r : result StateTransitionObject) (obj' : StateSpaceModelObject)
            (h' : heap),
       transition_at inp_at now obj h = Some (r, obj', h')
       /\ model_at h' obj' = Some this'
       /\ extends h h'
       /\ fresh h (currentState_at obj')
       /\ match r with
          | Throw e => sign_base64 = Throw e
          | Ok ro =>
              (exists t : StateTransition,
                  fst (transition inp now this) = Ok t
                  /\ record_at h' ro = Some t)
              /\ nextState_at ro = currentState_at obj'
              /\ input_at ro = inp_at
              /\ fresh h (prevState_at ro)
              /\ fresh h (output_at ro)
              /\ prevState_at ro <> nextState_at ro
              /\ prevState_at ro <> output_at ro
              /\ nextState_at ro <> output_at ro
          end.
Proof.
  intros Hok Hinp Hat Hobj next out hsh this'.
  pose proof (transition_on_model_ok inp now this Hok Hinp) as Hcall.
  cbv zeta in Hcall. fold next out hsh this' in Hcall.
  split; [now rewrite Hcall|].
  split; [now rewrite Hcall|].
  split; [intros sign Hs; now rewrite Hcall, Hs|].
  split; [intros e Hs; now rewrite Hcall, Hs|].
  destruct (transition_at_refines inp_at now obj h inp this Hat Hobj)
    as (r & obj' & h' & Hrun & Hmodel & Hext & Hr).
  exists r, obj', h'.
  split; [exact Hrun|].
  rewrite Hcall in Hmodel, Hr. cbn [fst snd] in Hmodel, Hr.
  split; [exact Hmodel|]. split; [exact Hext|].
  destruct r as [ro|e].
  - destruct Hr as (t & Ht & Hrec & Hi & Hn & Hfp & Hfn & Hfo & Hd).
    split; [now rewrite <- Hn|].
    split; [exists t; split; [now rewrite Hcall|exact Hrec]|].
    repeat split; try assumption; tauto.
  - destruct sign_base64 as [sign|e'] eqn:Hs; [discriminate|].
    assert (Hfresh : fresh h (currentState_at obj')).
    { unfold transition_at in Hrun. rewrite Hat in Hrun.
      unfold model_at in Hobj.
      destruct (heap_get h (currentState_at obj)) as [state|]; [|discriminate].
      injection Hobj as Hthis.
      assert (Hlen : negb (Z.of_nat (List.length inp)
                          =? inputSize (config_of obj))%Z = false).
      { rewrite <- Hthis in Hinp. cbn [config] in Hinp.
        now rewrite Hinp, Z.eqb_refl. }
      rewrite Hlen in Hrun.
      unfold model_ok in Hok. rewrite !andb_true_iff, Z.eqb_eq in Hok.
      destruct Hok as [[Hshape Hpos] Hstate].
      destruct (next_state_and_output_spec (config this) (currentState this)
                  inp Hshape Hpos Hstate Hinp) as [Hstep _].
      rewrite <- Hthis in Hstep. cbn [config currentState] in Hstep.
      unfold heap_alloc in Hrun. rewrite Hstep in Hrun.
      unfold signData in Hrun. rewrite Hs in Hrun. cbn [bind] in Hrun.
      injection Hrun as _ <- _. cbn [currentState_at].
      unfold fresh, heap_get. apply nth_error_None.
      rewrite length_app. cbn. lia. }
    split; [exact Hfresh|]. now injection Hr as ->.
Qed.

(** The models the theorem is about are the ones a well-shaped configuration
    leads to: construction yields one, and [transition] and [reset] keep
    them so. *)
Lemma new_model_ok (cfg : SSMConfig) (keys : KeyPair) (this : StateSpaceModel) :
  well_shaped cfg = true ->
  positive_sizes cfg = true ->
  new_StateSpaceModel cfg keys = Ok this ->
  model_ok this = true.
Proof.
  intros Hshape Hpos. unfold new_StateSpaceModel, new_Array_fill_0.
  destruct (_ && _)%bool eqn:Hrange; [|discriminate].
  cbn [bind]. intros H. inversion H; subst; clear H.
  unfold model_ok. cbn [config currentState].
  rewrite Hshape, Hpos. cbn [andb].
  apply andb_true_iff in Hrange. destruct Hrange as [Hlo _].
  apply Z.leb_le in Hlo.
  apply Z.eqb_eq. rewrite repeat_length. lia.
Qed.

Lemma transition_keeps_model_ok (inp : vector) (now : float)
    (this : StateSpaceModel) :
  model_ok this = true ->
  model_ok (snd (transition inp now this)) = true.
Proof.
  intros Hok.
  destruct (Z.eq_dec (Z.of_nat (List.length inp)) (inputSize (config this)))
    as [Hinp|Hinp].
  - rewrite (transition_on_model_ok inp now this Hok Hinp).
    cbn [snd]. unfold model_ok in *. cbn [config currentState].
    rewrite !andb_true_iff, Z.eqb_eq in Hok.
    destruct Hok as [[Hshape Hpos] Hstate].
    destruct (next_state_and_output_spec (config this) (currentState this) inp)
      as [_ Hlen]; try assumption.
    rewrite Hshape, Hpos. cbn [andb]. now apply Z.eqb_eq.
  - now rewrite (transition_mismatch inp now this Hinp).
Qed.

Lemma reset_keeps_model_ok (this this' : StateSpaceModel) :
  model_ok this = true ->
  reset this = Ok this' ->
  model_ok this' = true.
Proof.
  unfold model_ok. intros Hok.
  rewrite !andb_true_iff in Hok. destruct Hok as [[Hshape Hpos] _].
  unfold reset, new_Array_fill_0.
  destruct (_ && _)%bool eqn:Hrange; [|discriminate].
  cbn [bind]. intros Hr. inversion Hr; subst; clear Hr.
  cbn [config currentState].
  rewrite Hshape, Hpos. cbn [andb].
  apply andb_true_iff in Hrange. destruct Hrange as [Hlo _].
  apply Z.leb_le in Hlo.
  apply Z.eqb_eq. rewrite repeat_length. lia.
Qed.

End LinearStep.

Lemma transition_computes_linear_step_witness :
  model_ok default_model = true
  /\ Z.of_nat (List.length [1]%float) = inputSize (config default_model)
  /\ heap_get default_heap 1 = Some [1]%float
  /\ model_at default_heap default_object = Some default_model
  /\ fst (@transition test_platform [1]%float 1700000000000%float default_model)
     = Ok {| prevState := [0; 0]%float;
             nextState := [1; 0.5]%float;
             input := [1]%float;
             output := [0.1]%float;
             timestamp := 1700000000000%float;
             hash := @hashState test_platform
                       (transitionData [0; 0]%float [1; 0.5]%float [1]%float
                                       [0.1]%float 1700000000000%float);
             signature :=
               "signed:test-key:"
               ++ @hashState test_platform
                    (transitionData [0; 0]%float [1; 0.5]%float [1]%float
                                    [0.1]%float 1700000000000%float) |}
  /\ fst (@transition node_like_platform [1]%float 1700000000000%float
            default_model)
     = Throw unsupported
  /\ getState (snd (@transition node_like_platform [1]%float
                      1700000000000%float default_model))
     = [1; 0.5]%float.
Proof.
  split; [reflexivity|]. split; [reflexivity|].
  split; [reflexivity|]. split; [reflexivity|].
  split; [|split].
  - destruct (@transition_computes_linear_step test_platform [1]%float
                1700000000000%float default_model default_heap 1
                default_object eq_refl eq_refl eq_refl eq_refl)
      as (_ & _ & Hreturns & _).
    rewrite (Hreturns _ eq_refl). reflexivity.
  - destruct (@transition_computes_linear_step node_like_platform [1]%float
                1700000000000%float default_model default_heap 1
                default_object eq_refl eq_refl eq_refl eq_refl)
      as (_ & _ & _ & Hthrows & _).
    exact (Hthrows _ eq_refl).
  - destruct (@transition_computes_linear_step node_like_platform [1]%float
                1700000000000%float default_model default_heap 1
                default_object eq_refl eq_refl eq_refl eq_refl)
      as (_ & Hstate & _).
    rewrite Hstate. reflexivity.
Defined.

(** C1 as stated fails in two ways.

    It fails on models the constructor accepts.  With a [B] of one row where
    [A] has two, the second row of the sum reads a property of [undefined].
    With shapes as declared but no output row, no input entry or no state
    entry, [matrixMultiply] reads [length] of a first row that is not there.
    Each call throws a [TypeError], for an input of the configured length,
    and leaves the state as it was.

    And the record does not hold copies of the next state and of the input.
    On the default model, with its state at address 0 and the caller's input
    [1] at address 1, the record's [nextState] is the array that the model
    keeps as its state, and its [input] is the caller's array: after a write
    of 99 into the record's [nextState] the model's state is [99, 0.5], and
    [getState] returns a copy of that; after a write of 7 into the caller's
    array the record's input is [7].  A write into the record's [prevState],
    which is a copy, changes neither. *)
Lemma transition_throws_and_record_shares_arrays :
  ((well_shaped short_B_config = false
    /\ new_StateSpaceModel short_B_config test_keys
       = Ok {| config := short_B_config; currentState := [0; 0]%float;
               keyPair := test_keys |}
    /\ Z.of_nat (List.length [1]%float) = inputSize short_B_config
    /\ @transition test_platform [1]%float 1700000000000%float
         {| config := short_B_config; currentState := [0; 0]%float;
            keyPair := test_keys |}
       = (Throw TypeError,
          {| config := short_B_config; currentState := [0; 0]%float;
             keyPair := test_keys |}))
   /\ (well_shaped no_output_config = true
       /\ new_StateSpaceModel no_output_config test_keys
          = Ok {| config := no_output_config; currentState := [0]%float;
                  keyPair := test_keys |}
       /\ Z.of_nat (List.length [1]%float) = inputSize no_output_config
       /\ @transition test_platform [1]%float 1700000000000%float
            {| config := no_output_config; currentState := [0]%float;
               keyPair := test_keys |}
          = (Throw TypeError,
             {| config := no_output_config; currentState := [0]%float;
                keyPair := test_keys |}))
   /\ (well_shaped no_input_config = true
       /\ new_StateSpaceModel no_input_config test_keys
          = Ok {| config := no_input_config; currentState := [0]%float;
                  keyPair := test_keys |}
       /\ Z.of_nat (List.length (@nil float)) = inputSize no_input_config
       /\ @transition test_platform [] 1700000000000%float
            {| config := no_input_config; currentState := [0]%float;
               keyPair := test_keys |}
          = (Throw TypeError,
             {| config := no_input_config; currentState := [0]%float;
                keyPair := test_keys |}))
   /\ (well_shaped no_state_config = true
       /\ new_StateSpaceModel no_state_config test_keys
          = Ok {| config := no_state_config; currentState := [];
                  keyPair := test_keys |}
       /\ Z.of_nat (List.length [1]%float) = inputSize no_state_config
       /\ @transition test_platform [1]%float 1700000000000%float
            {| config := no_state_config; currentState := [];
               keyPair := test_keys |}
          = (Throw TypeError,
             {| config := no_state_config; currentState := [];
                keyPair := test_keys |})))
  /\ exists (ro : StateTransitionObject) (obj' : StateSpaceModelObject)
            (h' : heap),
       @transition_at test_platform 1 1700000000000%float default_object
         default_heap
       = Some (Ok ro, obj', h')
       /\ nextState_at ro = currentState_at obj'
       /\ input_at ro = 1
       /\ prevState_at ro <> currentState_at default_object
       /\ option_map getState (model_at h' obj') = Some [1; 0.5]%float
       /\ option_map getState
            (model_at (heap_set (nextState_at ro) [99; 0.5]%float h') obj')
          = Some [99; 0.5]%float
       /\ (exists (a : address) (h'' : heap),
             getState_at obj' (heap_set (nextState_at ro) [99; 0.5]%float h')
             = Some (a, h'')
             /\ a <> currentState_at obj'
             /\ heap_get h'' a = Some [99; 0.5]%float)
       /\ option_map input (record_at h' ro) = Some [1]%float
       /\ option_map input (record_at (heap_set 1 [7]%float h') ro)
          = Some [7]%float
       /\ option_map getState
            (model_at (heap_set (prevState_at ro) [99; 0]%float h') obj')
          = Some [1; 0.5]%float
       /\ option_map getState
            (model_at (heap_set (prevState_at ro) [99; 0]%float h')
                      default_object)
          = Some [0; 0]%float.
Proof.
  split; [repeat split; vm_compute; reflexivity|].
  eexists _, _, _. split; [vm_compute; reflexivity|].
  cbn [nextState_at currentState_at input_at prevState_at].
  split; [reflexivity|]. split; [reflexivity|].
  split; [vm_compute; discriminate|].
  split; [reflexivity|]. split; [reflexivity|].
  split.
  { eexists _, _. split; [vm_compute; reflexivity|].
    split; [discriminate|reflexivity]. }
  repeat split.
Qed.
(** ** The default configuration, step by step *)

Section DefaultScenario.

Context {platform : Platform}.

(** C5 (as amended). With the default matrices and the initial state [0, 0],
    a transition on input [1.0] computes nextState [1.0, 0.5] and output
    [0.1] and leaves the model in state [1.0, 0.5]; a second transition on
    input [1.0], from that state, computes nextState [1.975, 1.025] and
    output [1.35] and leaves the model in state [1.975, 1.025].  Each decimal
    stands for the binary64 number nearest to it, and the equalities are
    exact; they hold whatever the keys and the clock readings.  Where signing
    returns, each call returns a record with these vectors; where signing
    throws, each call throws after it has replaced the state. *)
Theorem default_two_transitions (keys : KeyPair) (now1 now2 : float) :
  let m0 := {| config := createDefaultSSMConfig;
               currentState := [0; 0]%float; keyPair := keys |} in
  let m1 := {| config := createDefaultSSMConfig;
               currentState := [1.0; 0.5]%float; keyPair := keys |} in
  let m2 := {| config := createDefaultSSMConfig;
               currentState := [1.975; 1.025]%float; keyPair := keys |} in
  new_StateSpaceModel createDefaultSSMConfig keys = Ok m0
  /\ getState m0 = [0; 0]%float
  /\ next_state_and_output createDefaultSSMConfig [0; 0]%float [1.0]%float
     = Ok ([1.0; 0.5]%float, [0.1]%float)
  /\ snd (transition [1.0]%float now1 m0) = m1
  /\ getState (snd (transition [1.0]%float now1 m0)) = [1.0; 0.5]%float
  /\ next_state_and_output createDefaultSSMConfig [1.0; 0.5]%float [1.0]%float
     = Ok ([1.975; 1.025]%float, [1.35]%float)
  /\ snd (transition [1.0]%float now2 m1) = m2
  /\ getState (snd (transition [1.0]%float now2 m1)) = [1.975; 1.025]%float
  /\ (forall sign : string -> string -> string,
        sign_base64 = Ok sign ->
        exists t1 t2 : StateTransition,
          fst (transition [1.0]%float now1 m0) = Ok t1
          /\ prevState t1 = [0; 0]%float
          /\ nextState t1 = [1.0; 0.5]%float
          /\ output t1 = [0.1]%float
          /\ fst (transition [1.0]%float now2 m1) = Ok t2
          /\ prevState t2 = [1.0; 0.5]%float
          /\ nextState t2 = [1.975; 1.025]%float
          /\ output t2 = [1.35]%float)
  /\ (forall e : exn,
        sign_base64 = Throw e ->
        fst (transition [1.0]%float now1 m0) = Throw e
        /\ fst (transition [1.0]%float now2 m1) = Throw e).
Proof.
  intros m0 m1 m2.
  pose proof (transition_on_model_ok [1.0]%float now1 m0 eq_refl eq_refl)
    as H1.
  pose proof (transition_on_model_ok [1.0]%float now2 m1 eq_refl eq_refl)
    as H2.
  cbv zeta in H1, H2.
  split; [reflexivity|]. split; [reflexivity|]. split; [reflexivity|].
  split; [now rewrite H1|]. split; [now rewrite H1|].
  split; [reflexivity|].
  split; [now rewrite H2|]. split; [now rewrite H2|].
  split.
  - intros sign Hs. rewrite H1, H2, Hs. cbn [fst].
    eexists _, _. repeat split.
  - intros e Hs. rewrite H1, H2, Hs. now split.
Qed.

End DefaultScenario.

Lemma default_two_transitions_witness :
  (exists t2 : StateTransition,
     fst (@transition test_platform [1.0]%float 1700000000001%float
            {| config := createDefaultSSMConfig;
               currentState := [1.0; 0.5]%float; keyPair := test_keys |})
     = Ok t2
     /\ nextState t2 = [1.975; 1.025]%float
     /\ output t2 = [1.35]%float)
  /\ fst (@transition node_like_platform [1.0]%float 1700000000001%float
            {| config := createDefaultSSMConfig;
               currentState := [1.0; 0.5]%float; keyPair := test_keys |})
     = Throw unsupported
  /\ getState
       (snd (@transition node_like_platform [1.0]%float 1700000000001%float
               {| config := createDefaultSSMConfig;
                  currentState := [1.0; 0.5]%float; keyPair := test_keys |}))
     = [1.975; 1.025]%float.
Proof.
  split; [|split].
  - destruct (@default_two_transitions test_platform test_keys
                1700000000000%float 1700000000001%float)
      as (_ & _ & _ & _ & _ & _ & _ & _ & Hreturns & _).
    destruct (Hreturns _ eq_refl)
      as (t1 & t2 & _ & _ & _ & _ & H2 & _ & Hnext & Hout).
    exists t2. now repeat split.
  - destruct (@default_two_transitions node_like_platform test_keys
                1700000000000%float 1700000000001%float)
      as (_ & _ & _ & _ & _ & _ & _ & _ & _ & Hthrows).
    exact (proj2 (Hthrows _ eq_refl)).
  - destruct (@default_two_transitions node_like_platform test_keys
                1700000000000%float 1700000000001%float)
      as (_ & _ & _ & _ & _ & _ & _ & Hstate & _).
    exact Hstate.
Defined.

(** C5 as stated fails in its second step: the next state the code computes
    from state [1.0, 0.5] on input [1.0] is [1.975, 1.025], and that is not
    [2.025, 1.475].  It is the state of the default model after two calls,
    whether signing returns, and then the second record has it, or throws. *)
Lemma default_second_nextState_is_not_2_025 :
  next_state_and_output createDefaultSSMConfig [1.0; 0.5]%float [1.0]%float
  = Ok ([1.975; 1.025]%float, [1.35]%float)
  /\ [1.975; 1.025]%float <> [2.025; 1.475]%float
  /\ getState
       (snd (@transition node_like_platform [1.0]%float 1700000000001%float
               (snd (@transition node_like_platform [1.0]%float
                       1700000000000%float default_model))))
     = [1.975; 1.025]%float
  /\ getState
       (snd (@transition test_platform [1.0]%float 1700000000001%float
               (snd (@transition test_platform [1.0]%float
                       1700000000000%float default_model))))
     = [1.975; 1.025]%float
  /\ exists t2 : StateTransition,
       fst (@transition test_platform [1.0]%float 1700000000001%float
              (snd (@transition test_platform [1.0]%float 1700000000000%float
                      default_model)))
       = Ok t2
       /\ prevState t2 = [1.0; 0.5]%float
       /\ nextState t2 = [1.975; 1.025]%float.
Proof.
  split; [reflexivity|]. split.
  { intros H.
    apply (f_equal (fun v : vector =>
                      match v with
                      | x :: _ => Leibniz.eqb x 2.025%float
                      | [] => false
                      end)) in H.
    vm_compute in H. discriminate H. }
  split; [vm_compute; reflexivity|]. split; [vm_compute; reflexivity|].
  eexists. split; [vm_compute; reflexivity|].
  split; reflexivity.
Qed.
(** ** Numbers that are not finite *)

(** What [is_finite] and [is_zero] say of the number as the specification of
    the floating-point operations sees it. *)
Lemma SFeqb_refl_finite (s : bool) (m : positive) (e : Z) :
  SFeqb (S754_finite s m e) (S754_finite s m e) = true.
Proof.
  unfold SFeqb, SFcompare.
  destruct s; rewrite Z.compare_refl, Pos.compare_cont_refl; reflexivity.
Qed.

Lemma is_finite_Prim2SF (x : float) :
  is_finite x
  = match Prim2SF x with
    | S754_nan | S754_infinity _ => false
    | _ => true
    end.
Proof.
  unfold is_finite, is_nan, is_infinity.
  rewrite !eqb_spec, abs_spec.
  change (Prim2SF infinity) with (S754_infinity false).
  destruct (Prim2SF x) as [s|s| |s m e]; try (destruct s; reflexivity).
  - reflexivity.
  - rewrite SFeqb_refl_finite. reflexivity.
Qed.

Lemma is_zero_Prim2SF (x : float) :
  is_zero x = match Prim2SF x with S754_zero _ => true | _ => false end.
Proof.
  unfold is_zero. rewrite eqb_spec.
  change (Prim2SF zero) with (S754_zero false).
  destruct (Prim2SF x) as [s|s| |s m e]; try (destruct s; reflexivity).
  reflexivity.
Qed.

(** A sum or a product with a number that is not finite is not finite. *)
Lemma add_non_finite_l (x y : float) :
  is_finite x = false -> is_finite (x + y) = false.
Proof.
  rewrite !is_finite_Prim2SF, add_spec.
  destruct (Prim2SF x) as [s|s| |s m e]; try discriminate; intros _;
    destruct (Prim2SF y) as [s'|s'| |s' m' e']; try reflexivity.
  now destruct s, s'.
Qed.

Lemma add_non_finite_r (x y : float) :
  is_finite y = false -> is_finite (x + y) = false.
Proof.
  rewrite !is_finite_Prim2SF, add_spec.
  destruct (Prim2SF y) as [s|s| |s m e]; try discriminate; intros _;
    destruct (Prim2SF x) as [s'|s'| |s' m' e']; try reflexivity.
  now destruct s, s'.
Qed.

Lemma mul_non_finite_r (x y : float) :
  is_finite y = false -> is_finite (x * y) = false.
Proof.
  rewrite !is_finite_Prim2SF, mul_spec.
  destruct (Prim2SF y) as [s|s| |s m e]; try discriminate; intros _;
    destruct (Prim2SF x) as [s'|s'| |s' m' e']; reflexivity.
Qed.

Lemma accumulate_from_non_finite (l : list (float * float)) (acc : float) :
  is_finite acc = false ->
  is_finite (fold_left (fun acc p => (acc + fst p * snd p)%float) l acc)
  = false.
Proof.
  revert acc. induction l as [|p l IH]; intros acc Hacc; [exact Hacc|].
  cbn [fold_left]. apply IH. now apply add_non_finite_l.
Qed.

Lemma dot_product_non_finite (row : vector) :
  forall (v : vector) (acc : float),
    List.length row = List.length v ->
    some_non_finite v ->
    is_finite (fold_left (fun acc p => (acc + fst p * snd p)%float)
                         (combine row v) acc)
    = false.
Proof.
  induction row as [|a row IH]; intros [|b v] acc Hlen Hsome;
    try discriminate; [inversion Hsome|].
  cbn [combine fold_left fst snd].
  inversion Hsome as [? ? Hb|? ? Hv]; subst.
  - apply accumulate_from_non_finite, add_non_finite_r.
    now apply mul_non_finite_r.
  - apply IH; [now inversion Hlen|exact Hv].
Qed.

Lemma product_non_finite (M : matrix) (v : vector) :
  (forall row, In row M -> List.length row = List.length v) ->
  some_non_finite v ->
  all_non_finite (matrix_vector_product M v).
Proof.
  intros Hrows Hsome. unfold all_non_finite, matrix_vector_product.
  apply Forall_forall. intros y Hy. apply in_map_iff in Hy.
  destruct Hy as (row & <- & Hrow).
  unfold dot_product. apply dot_product_non_finite; [|exact Hsome].
  now apply Hrows.
Qed.

Lemma vector_sum_non_finite_l (a : vector) :
  forall b : vector, all_non_finite a -> all_non_finite (vector_sum a b).
Proof.
  unfold all_non_finite, vector_sum.
  induction a as [|x a IH]; intros [|y b] Ha; try constructor.
  - apply add_non_finite_l. now inversion Ha.
  - apply IH. now inversion Ha.
Qed.

Lemma vector_sum_non_finite_r (a : vector) :
  forall b : vector, all_non_finite b -> all_non_finite (vector_sum a b).
Proof.
  unfold all_non_finite, vector_sum.
  induction a as [|x a IH]; intros [|y b] Hb; try constructor.
  - apply add_non_finite_r. now inversion Hb.
  - apply IH. now inversion Hb.
Qed.

Lemma sum_of_products_non_finite (M N : matrix) (x u : vector) :
  (forall row, In row M -> List.length row = List.length x) ->
  (forall row, In row N -> List.length row = List.length u) ->
  some_non_finite x \/ some_non_finite u ->
  all_non_finite
    (vector_sum (matrix_vector_product M x) (matrix_vector_product N u)).
Proof.
  intros HM HN [Hx|Hu].
  - now apply vector_sum_non_finite_l, product_non_finite.
  - now apply vector_sum_non_finite_r, product_non_finite.
Qed.

Lemma spec_output_length (cfg : SSMConfig) (state inp : vector) :
  well_shaped cfg = true ->
  Z.of_nat (List.length (spec_output cfg state inp)) = outputSize cfg.
Proof.
  intros Hshape.
  unfold well_shaped in Hshape. rewrite !andb_true_iff in Hshape.
  destruct Hshape as [[[_ _] HsC] HsD].
  apply has_shape_spec in HsC, HsD.
  unfold spec_output, matrix_vector_product.
  destruct HsC as [HC _], HsD as [HD _].
  rewrite vector_sum_length; rewrite !length_map; [exact HC|].
  apply Nat2Z.inj. etransitivity; [exact HC|symmetry; exact HD].
Qed.

(** One number that is not finite, in the state or in the input, leaves no
    finite number in the next state nor in the output. *)
Lemma spec_step_non_finite (cfg : SSMConfig) (state inp : vector) :
  well_shaped cfg = true ->
  Z.of_nat (List.length state) = stateSize cfg ->
  Z.of_nat (List.length inp) = inputSize cfg ->
  some_non_finite state \/ some_non_finite inp ->
  all_non_finite (spec_nextState cfg state inp)
  /\ all_non_finite (spec_output cfg state inp).
Proof.
  intros Hshape Hstate Hinp Hsome.
  unfold well_shaped in Hshape. rewrite !andb_true_iff in Hshape.
  destruct Hshape as [[[HsA HsB] HsC] HsD].
  apply has_shape_spec in HsA, HsB, HsC, HsD.
  destruct HsA as [_ HrA], HsB as [_ HrB], HsC as [_ HrC], HsD as [_ HrD].
  unfold spec_nextState, spec_output.
  split; apply sum_of_products_non_finite; try exact Hsome;
    intros row Hrow; apply Nat2Z.inj.
  - rewrite (HrA row Hrow). now symmetry.
  - rewrite (HrB row Hrow). now symmetry.
  - rewrite (HrC row Hrow). now symmetry.
  - rewrite (HrD row Hrow). now symmetry.
Qed.

Section NonFinite.

Context {platform : Platform}.

(** The text [JSON.stringify] writes for an array of numbers. *)
Lemma JSON_stringify_vector (v : vector) :
  JSON_stringify (json_of_vector v)
  = "[" ++ String.concat ","
             (map (fun x => if is_finite x then Number_toString x else "null") v)
        ++ "]".
Proof.
  unfold json_of_vector. cbn [JSON_stringify]. now rewrite map_map.
Qed.

(** An array without a finite number is written as so many [null]. *)
Lemma JSON_stringify_non_finite (v : vector) :
  all_non_finite v ->
  JSON_stringify (json_of_vector v)
  = "[" ++ String.concat "," (repeat "null" (List.length v)) ++ "]".
Proof.
  intros Hv. rewrite JSON_stringify_vector.
  assert (Hmap : map (fun x => if is_finite x then Number_toString x
                               else "null") v
                 = repeat "null" (List.length v)).
  { induction Hv as [|x v Hx _ IH]; [reflexivity|].
    cbn [map List.length repeat]. now rewrite Hx, IH. }
  now rewrite Hmap.
Qed.

(** C9 (as amended). Neither [transition] nor the hashing rejects a number
    that is not finite; there is no [SerializationError].  For every model
    with well-shaped matrices, sizes of at least 1 and a state of length
    [stateSize], and for every input vector of the configured length,
    whatever numbers the state and the input hold: the call replaces the
    state by [A.state + B.input]; it throws only what signing throws, which
    does not depend on the numbers; and where signing returns, it returns
    the record, whose hash is the SHA-256 of [JSON.stringify] of the five
    data fields.  If the input or the state holds a number that is not
    finite ([NaN] or an infinity), then no number of the next state and of
    the output is finite: the model is left in such a state, and in the
    hashed text every one of them is written [null]. *)
Theorem transition_accepts_any_numbers (inp : vector) (now : float)
    (this : StateSpaceModel) :
  model_ok this = true ->
  Z.of_nat (List.length inp) = inputSize (config this) ->
  let next := spec_nextState (config this) (currentState this) inp in
  let out := spec_output (config this) (currentState this) inp in
  getState (snd (transition inp now this)) = next
  /\ (forall e : exn,
        fst (transition inp now this) = Throw e -> sign_base64 = Throw e)
  /\ (forall sign : string -> string -> string,
        sign_base64 = Ok sign ->
        exists t : StateTransition,
          fst (transition inp now this) = Ok t
          /\ prevState t = currentState this
          /\ nextState t = next
          /\ input t = inp
          /\ output t = out
          /\ hash t = sha256_hex
                        (JSON_stringify
                           (transitionData (currentState this) next inp out
                                           now)))
  /\ (some_non_finite inp \/ some_non_finite (currentState this) ->
      all_non_finite next
      /\ all_non_finite out
      /\ all_non_finite (getState (snd (transition inp now this)))
      /\ JSON_stringify (json_of_vector next)
         = "[" ++ String.concat ","
                    (repeat "null" (Z.to_nat (stateSize (config this))))
               ++ "]"
      /\ JSON_stringify (json_of_vector out)
         = "[" ++ String.concat ","
                    (repeat "null" (Z.to_nat (outputSize (config this))))
               ++ "]").
Proof.
  intros Hok Hinp next out.
  pose proof (transition_on_model_ok inp now this Hok Hinp) as Hcall.
  cbv zeta in Hcall. fold next out in Hcall.
  unfold model_ok in Hok. rewrite !andb_true_iff, Z.eqb_eq in Hok.
  destruct Hok as [[Hshape Hpos] Hstate].
  split; [now rewrite Hcall|].
  split.
  { rewrite Hcall. cbn [fst].
    destruct sign_base64 as [sign|e0]; intros e He; [discriminate|].
    now injection He as ->. }
  split.
  { intros sign Hs. rewrite Hcall, Hs. cbn [fst].
    eexists. split; [reflexivity|]. now repeat split. }
  intros Hsome.
  destruct (spec_step_non_finite (config this) (currentState this) inp
              Hshape Hstate Hinp) as [Hnext Hout]; [tauto|].
  fold next in Hnext. fold out in Hout.
  destruct (next_state_and_output_spec (config this) (currentState this) inp
              Hshape Hpos Hstate Hinp) as [_ Hlen].
  pose proof (spec_output_length (config this) (currentState this) inp Hshape)
    as Hlen'.
  fold next in Hlen. fold out in Hlen'.
  split; [exact Hnext|]. split; [exact Hout|].
  split; [now rewrite Hcall|].
  rewrite <- Hlen, <- Hlen', !Nat2Z.id.
  split; now apply JSON_stringify_non_finite.
Qed.

End NonFinite.

Lemma transition_accepts_any_numbers_witness :
  model_ok default_model = true
  /\ Z.of_nat (List.length [infinity]) = inputSize (config default_model)
  /\ some_non_finite [infinity]
  /\ getState (snd (@transition node_like_platform [infinity]
                      1700000000000%float default_model))
     = [infinity; infinity]
  /\ fst (@transition node_like_platform [infinity] 1700000000000%float
            default_model)
     = Throw unsupported
  /\ (exists t : StateTransition,
        fst (@transition test_platform [infinity] 1700000000000%float
               default_model)
        = Ok t
        /\ nextState t = [infinity; infinity]
        /\ output t = [infinity])
  /\ @JSON_stringify test_platform (json_of_vector [infinity; infinity])
     = "[null,null]".
Proof.
  assert (Hsome : some_non_finite [infinity]) by (now constructor).
  split; [reflexivity|]. split; [reflexivity|]. split; [exact Hsome|].
  split; [|split; [|split]].
  - destruct (@transition_accepts_any_numbers node_like_platform [infinity]
                1700000000000%float default_model eq_refl eq_refl)
      as (Hstate & _).
    rewrite Hstate. reflexivity.
  - destruct (@transition_accepts_any_numbers node_like_platform [infinity]
                1700000000000%float default_model eq_refl eq_refl)
      as (_ & Hthrows & _).
    remember (fst (@transition node_like_platform [infinity]
                     1700000000000%float default_model)) as r eqn:E.
    destruct r as [t|e]; [vm_compute in E; discriminate E|].
    pose proof (Hthrows e eq_refl) as H.
    change (Throw unsupported = @Throw (string -> string -> string) e) in H.
    now injection H as <-.
  - destruct (@transition_accepts_any_numbers test_platform [infinity]
                1700000000000%float default_model eq_refl eq_refl)
      as (_ & _ & Hreturns & _).
    destruct (Hreturns _ eq_refl) as (t & Ht & _ & Hnext & _ & Hout & _).
    exists t. split; [exact Ht|]. split; [exact Hnext|exact Hout].
  - destruct (@transition_accepts_any_numbers test_platform [infinity]
                1700000000000%float default_model eq_refl eq_refl)
      as (_ & _ & _ & Hnull).
    destruct (Hnull (or_introl Hsome)) as (_ & _ & _ & Htext & _).
    exact Htext.
Defined.

(** C9 as stated fails: an input holding [NaN] is not rejected.  Where
    signing returns, the call returns a record, the state becomes
    [NaN, NaN], and the hashed text holds [null] where the numbers were.
    Where signing throws, the call throws what it throws on the finite input
    [1]: the exception of signing, after the state has become [NaN, NaN]. *)
Lemma transition_does_not_reject_nan :
  is_finite nan = false
  /\ (exists (t : StateTransition) (this' : StateSpaceModel),
        @transition test_platform [nan] 1700000000000%float default_model
        = (Ok t, this')
        /\ input t = [nan]
        /\ nextState t = [nan; nan]
        /\ getState this' = [nan; nan]
        /\ hash t = @sha256_hex test_platform
                      (@JSON_stringify test_platform
                         (transitionData [0; 0]%float [nan; nan] [nan] [nan]
                                         1700000000000%float))
        /\ @JSON_stringify test_platform (json_of_vector (nextState t))
           = "[null,null]")
  /\ @transition node_like_platform [nan] 1700000000000%float default_model
     = (Throw unsupported,
        {| config := createDefaultSSMConfig; currentState := [nan; nan];
           keyPair := test_keys |})
  /\ fst (@transition node_like_platform [1]%float 1700000000000%float
            default_model)
     = Throw unsupported.
Proof.
  split; [reflexivity|]. split.
  - eexists _, _. split; [vm_compute; reflexivity|].
    repeat split.
  - split; vm_compute; reflexivity.
Qed.
(** ** Construction *)

(** C7 (as amended). Construction checks no shape.  For every configuration,
    well-shaped or not, whose [stateSize] is an array length (an integer from
    0 to 2^32 - 1), construction succeeds, keeps the configuration as given
    and initializes the state to [stateSize] zeros. *)
Theorem construction_checks_no_shape (cfg : SSMConfig) (keys : KeyPair) :
  (0 <= stateSize cfg < 2 ^ 32)%Z ->
  new_StateSpaceModel cfg keys
  = Ok {| config := cfg;
          currentState := repeat 0%float (Z.to_nat (stateSize cfg));
          keyPair := keys |}.
Proof.
  intros [Hlo Hhi]. unfold new_StateSpaceModel, new_Array_fill_0.
  apply Z.leb_le in Hlo. apply Z.ltb_lt in Hhi.
  now rewrite Hlo, Hhi.
Qed.


Lemma construction_checks_no_shape_witness :
  (0 <= stateSize short_B_config < 2 ^ 32)%Z
  /\ new_StateSpaceModel short_B_config test_keys
     = Ok {| config := short_B_config;
             currentState := [0; 0]%float;
             keyPair := test_keys |}.
Proof.
  split.
  - cbn. lia.
  - apply (construction_checks_no_shape short_B_config test_keys). cbn. lia.
Defined.

(** C7 as stated fails: a configuration whose [B] is 1x1 where the declared
    sizes ask for 2x1 is constructed without an error. *)
Lemma misshapen_config_is_constructed :
  has_shape (B short_B_config) (stateSize short_B_config)
            (inputSize short_B_config) = false
  /\ well_shaped short_B_config = false
  /\ new_StateSpaceModel short_B_config test_keys
     = Ok {| config := short_B_config;
             currentState := [0; 0]%float;
             keyPair := test_keys |}.
Proof.
  repeat split.
Qed.

(** ** The hashed text determines the text of every number in it *)

Lemma append_assoc (a b c : string) : (a ++ b) ++ c = a ++ (b ++ c).
Proof.
  induction a as [|x a IH]; cbn; [reflexivity|now rewrite IH].
Qed.

Lemma append_cancel_l (a b c : string) : a ++ b = a ++ c -> b = c.
Proof.
  induction a as [|x a IH]; cbn; intros H; [exact H|].
  apply IH. now inversion H.
Qed.

Lemma free_of_app (c : ascii) (a b : string) :
  free_of c (a ++ b) = free_of c a && free_of c b.
Proof.
  induction a as [|x a IH]; cbn; [reflexivity|].
  now rewrite IH, andb_assoc.
Qed.

Lemma free_of_head (c d : ascii) (s : string) :
  free_of c (String d s) = true -> c <> d.
Proof.
  cbn. intros H Heq. subst. now rewrite Ascii.eqb_refl in H.
Qed.

(** Two texts free of both delimiters, each followed by one of them: the
    texts, the delimiters and the remainders agree. *)
Lemma delimited_split (c1 c2 : ascii) (s1 : string) :
  forall (s2 r1 r2 : string),
    free_of c1 s1 = true -> free_of c2 s1 = true ->
    free_of c1 s2 = true -> free_of c2 s2 = true ->
    s1 ++ String c1 r1 = s2 ++ String c2 r2 ->
    s1 = s2 /\ c1 = c2 /\ r1 = r2.
Proof.
  induction s1 as [|x s1 IH]; intros [|y s2] r1 r2 H11 H21 H12 H22 H;
    cbn in H; inversion H; subst.
  - now repeat split.
  - now apply free_of_head in H12.
  - now apply free_of_head in H21.
  - cbn in H11, H21, H12, H22.
    apply andb_true_iff in H11, H21, H12, H22.
    destruct (IH s2 r1 r2) as (E1 & E2 & E3); try tauto.
    subst. now repeat split.
Qed.

Lemma plain_spec (s : string) :
  plain s = true ->
  s <> "" /\ free_of "," s = true /\ free_of "]" s = true
  /\ free_of "}" s = true.
Proof.
  unfold plain. rewrite !andb_true_iff, negb_true_iff, String.eqb_neq. tauto.
Qed.

(** The items of an array and what follows its closing bracket. *)
Lemma items_split (xs : list string) :
  forall (ys : list string) (r r' : string),
    Forall (fun x => plain x = true) xs ->
    Forall (fun y => plain y = true) ys ->
    String.concat "," xs ++ String "]" r
    = String.concat "," ys ++ String "]" r' ->
    xs = ys /\ r = r'.
Proof.
  induction xs as [|x xs IH]; intros [|y ys] r r' Hxs Hys H.
  - cbn in H. inversion H. now split.
  - exfalso. inversion Hys as [|? ? Hy _]; subst.
    apply plain_spec in Hy. destruct Hy as (Hne & Hc & Hb & _).
    destruct ys as [|y' ys]; cbn [String.concat] in H.
    + destruct (delimited_split "]" "]" "" y r r') as (E & _);
        try reflexivity; try assumption. now apply Hne.
    + rewrite append_assoc in H. cbn [append] in H.
      destruct (delimited_split "]" "," "" y r
                  (String.concat "," (y' :: ys) ++ String "]" r'))
        as (E & _); try reflexivity; try assumption. now apply Hne.
  - exfalso. inversion Hxs as [|? ? Hx _]; subst.
    apply plain_spec in Hx. destruct Hx as (Hne & Hc & Hb & _).
    destruct xs as [|x' xs]; cbn [String.concat] in H.
    + destruct (delimited_split "]" "]" x "" r r') as (E & _);
        try reflexivity; try assumption. now apply Hne.
    + rewrite append_assoc in H. cbn [append] in H.
      destruct (delimited_split "," "]" x ""
                  (String.concat "," (x' :: xs) ++ String "]" r) r')
        as (E & _); try reflexivity; try assumption. now apply Hne.
  - inversion Hxs as [|? ? Hx Hxs']; subst.
    inversion Hys as [|? ? Hy Hys']; subst.
    apply plain_spec in Hx. destruct Hx as (_ & Hxc & Hxb & _).
    apply plain_spec in Hy. destruct Hy as (_ & Hyc & Hyb & _).
    destruct xs as [|x' xs], ys as [|y' ys]; cbn [String.concat] in H.
    + destruct (delimited_split "]" "]" x y r r' Hxb Hxb Hyb Hyb H)
        as (-> & _ & ->). now split.
    + exfalso. rewrite append_assoc in H. cbn [append] in H.
      destruct (delimited_split "]" "," x y _ _ Hxb Hxc Hyb Hyc H)
        as (_ & E & _). discriminate E.
    + exfalso. rewrite append_assoc in H. cbn [append] in H.
      destruct (delimited_split "," "]" x y _ _ Hxc Hxb Hyc Hyb H)
        as (_ & E & _). discriminate E.
    + rewrite !append_assoc in H. cbn [append] in H.
      destruct (delimited_split "," "," x y _ _ Hxc Hxc Hyc Hyc H)
        as (-> & _ & Hrest).
      destruct (IH (y' :: ys) r r' Hxs' Hys' Hrest) as [E ->].
      now rewrite E.
Qed.

Lemma decimal_digits_free_of (c : ascii) (d : Decimal.uint) :
  (Nat.ltb (nat_of_ascii c) 48 || Nat.ltb 57 (nat_of_ascii c))%bool = true ->
  free_of c (NilEmpty.string_of_uint d) = true.
Proof.
  intros Hc.
  induction d as [|d IH|d IH|d IH|d IH|d IH|d IH|d IH|d IH|d IH|d IH];
    cbn [NilEmpty.string_of_uint free_of]; [reflexivity|..];
    rewrite IH, andb_true_r; apply negb_true_iff, Ascii.eqb_neq;
    intros ->; cbn in Hc; discriminate Hc.
Qed.

Lemma decimal_plain (n : Z) : plain (decimal n) = true.
Proof.
  unfold decimal, NilZero.string_of_uint.
  destruct (N.to_uint (Z.to_N n)) eqn:Hd; try reflexivity;
    unfold plain; rewrite !decimal_digits_free_of by reflexivity;
    reflexivity.
Qed.

Lemma plain_minus (s : string) : plain s = true -> plain ("-" ++ s) = true.
Proof.
  intros H. apply plain_spec in H. destruct H as (_ & Hc & Hb & Hr).
  unfold plain. cbn. now rewrite Hc, Hb, Hr.
Qed.

Section HashedText.

Context {platform : Platform}.

Hypothesis digits_plain : digits_are_plain.

Lemma number_text_plain (x : float) : plain (number_text x) = true.
Proof.
  unfold number_text. cbn [JSON_stringify].
  destruct (is_finite x); [|reflexivity].
  unfold Number_toString.
  destruct (Prim2SF x) as [s| [|] | |s m e]; try reflexivity.
  destruct (integral_value m e) as [n|]; [|apply digits_plain].
  destruct (n <? 2 ^ 53)%Z; [|apply digits_plain].
  destruct s; [apply plain_minus|]; apply decimal_plain.
Qed.

Lemma number_texts_plain (v : vector) :
  Forall (fun s => plain s = true) (map number_text v).
Proof.
  apply Forall_forall. intros s Hs. apply in_map_iff in Hs.
  destruct Hs as (x & <- & _). apply number_text_plain.
Qed.

(** The hashed text, laid out: fixed texts around the four arrays and the
    timestamp. *)
Lemma data_text_layout (t : StateTransition) :
  data_text t
  = ("{" ++ QuoteJSONString "prevState" ++ ":[")
    ++ String.concat "," (map number_text (prevState t)) ++ String "]"
    (("," ++ QuoteJSONString "nextState" ++ ":[")
    ++ String.concat "," (map number_text (nextState t)) ++ String "]"
    (("," ++ QuoteJSONString "input" ++ ":[")
    ++ String.concat "," (map number_text (input t)) ++ String "]"
    (("," ++ QuoteJSONString "output" ++ ":[")
    ++ String.concat "," (map number_text (output t)) ++ String "]"
    (("," ++ QuoteJSONString "timestamp" ++ ":")
    ++ number_text (timestamp t) ++ String "}" "")))).
Proof.
  unfold data_text, transitionData, json_of_vector, number_text.
  cbn [JSON_stringify map String.concat fst snd].
  rewrite !map_map.
  rewrite !append_assoc.
  reflexivity.
Qed.

(** Two records with the same hashed text agree in the text of every
    number. *)
Lemma same_text_same_number_texts (t' t : StateTransition) :
  data_text t' = data_text t -> same_number_texts t' t.
Proof.
  intros H. rewrite !data_text_layout in H.
  apply append_cancel_l in H.
  apply items_split in H; try apply number_texts_plain.
  destruct H as [Hprev H]. apply append_cancel_l in H.
  apply items_split in H; try apply number_texts_plain.
  destruct H as [Hnext H]. apply append_cancel_l in H.
  apply items_split in H; try apply number_texts_plain.
  destruct H as [Hinp H]. apply append_cancel_l in H.
  apply items_split in H; try apply number_texts_plain.
  destruct H as [Hout H]. apply append_cancel_l in H.
  pose proof (number_text_plain (timestamp t')) as Hp'.
  pose proof (number_text_plain (timestamp t)) as Hp.
  apply plain_spec in Hp'. apply plain_spec in Hp.
  destruct (delimited_split "}" "}" _ _ _ _
              (proj2 (proj2 (proj2 Hp'))) (proj2 (proj2 (proj2 Hp')))
              (proj2 (proj2 (proj2 Hp))) (proj2 (proj2 (proj2 Hp))) H)
    as (Hts & _).
  unfold same_number_texts. tauto.
Qed.

End HashedText.

(** And the other way round, on every platform. *)
Lemma same_number_texts_same_text {platform : Platform}
    (t' t : StateTransition) :
  same_number_texts t' t -> data_text t' = data_text t.
Proof.
  intros (Hprev & Hnext & Hinp & Hout & Hts).
  unfold data_text, transitionData, json_of_vector.
  cbn [JSON_stringify map String.concat fst snd].
  rewrite !map_map.
  unfold number_text in *. cbn [JSON_stringify] in *.
  now rewrite Hprev, Hnext, Hinp, Hout, Hts.
Qed.

(** ** The text of a number determines the number, up to what
    [JSON.stringify] forgets *)

(** *** Decimal digits *)

Lemma decimal_free_of (c : ascii) (n : Z) :
  (Nat.ltb (nat_of_ascii c) 48 || Nat.ltb 57 (nat_of_ascii c))%bool = true ->
  free_of c (decimal n) = true.
Proof.
  intros Hc. unfold decimal, NilZero.string_of_uint.
  destruct (N.to_uint (Z.to_N n)) eqn:Hd;
    try (now apply decimal_digits_free_of).
  cbn. apply andb_true_iff. split; [|reflexivity].
  apply negb_true_iff, Ascii.eqb_neq. intros ->. discriminate Hc.
Qed.

Lemma N_to_uint_nonnil (n : N) : N.to_uint n <> Decimal.Nil.
Proof.
  destruct n as [|p]; [discriminate|].
  apply DecimalPos.Unsigned.to_uint_nonnil.
Qed.

Lemma decimal_inj (n n' : Z) :
  (0 <= n)%Z -> (0 <= n')%Z -> decimal n = decimal n' -> n = n'.
Proof.
  intros Hn Hn' H. unfold decimal in H.
  apply (f_equal NilZero.uint_of_string) in H.
  rewrite !NilZero.usu in H by apply N_to_uint_nonnil.
  injection H as H. apply DecimalN.Unsigned.to_uint_inj in H.
  now apply Z2N.inj.
Qed.

Lemma signed_decimal_inj (s s' : bool) (n n' : Z) :
  (0 <= n)%Z -> (0 <= n')%Z ->
  (if s then "-" else "") ++ decimal n = (if s' then "-" else "") ++ decimal n' ->
  s = s' /\ n = n'.
Proof.
  intros Hn Hn' H.
  destruct s, s'; cbn [append] in H.
  - injection H as H. split; [reflexivity|now apply decimal_inj].
  - apply (f_equal (free_of "-")) in H. cbn [free_of] in H.
    rewrite (decimal_free_of "-" n') in H by reflexivity. discriminate H.
  - apply (f_equal (free_of "-")) in H. cbn [free_of] in H.
    rewrite (decimal_free_of "-" n) in H by reflexivity. discriminate H.
  - split; [reflexivity|now apply decimal_inj].
Qed.

Lemma signed_decimal_free_of (c : ascii) (s : bool) (n : Z) :
  (Nat.ltb (nat_of_ascii c) 45 || Nat.ltb 57 (nat_of_ascii c))%bool = true ->
  free_of c ((if s then "-" else "") ++ decimal n) = true.
Proof.
  intros Hc.
  assert (Hd : free_of c (decimal n) = true).
  { apply decimal_free_of.
    apply orb_true_iff in Hc. apply orb_true_iff.
    destruct Hc as [Hc|Hc]; [left|now right].
    apply Nat.ltb_lt in Hc. apply Nat.ltb_lt. lia. }
  destruct s; cbn [append free_of]; [|exact Hd].
  rewrite Hd, andb_true_r.
  apply negb_true_iff, Ascii.eqb_neq. intros ->. discriminate Hc.
Qed.

Lemma Z_toString_inj (n n' : Z) : Z_toString n = Z_toString n' -> n = n'.
Proof.
  unfold Z_toString. intros H.
  destruct (Z.ltb_spec n 0), (Z.ltb_spec n' 0).
  - apply (signed_decimal_inj true true) in H; lia.
  - apply (signed_decimal_inj true false) in H; [|lia|lia].
    destruct H as [H _]. discriminate H.
  - apply (signed_decimal_inj false true) in H; [|lia|lia].
    destruct H as [H _]. discriminate H.
  - apply (signed_decimal_inj false false) in H; lia.
Qed.

(** *** Mantissa and exponent of an integer *)

Lemma digits2_pos_log2 (m : positive) :
  Z.pos (digits2_pos m) = (Z.log2 (Z.pos m) + 1)%Z.
Proof.
  induction m as [m IH|m IH|]; cbn [digits2_pos]; [| |reflexivity].
  - rewrite Pos2Z.inj_succ, IH, Pos2Z.inj_xI, Z.log2_succ_double; lia.
  - rewrite Pos2Z.inj_succ, IH, Pos2Z.inj_xO, Z.log2_double; lia.
Qed.

Lemma integral_value_spec (m : positive) (e n : Z) :
  integral_value m e = Some n ->
  (0 < n)%Z
  /\ Z.log2 n = (Z.log2 (Z.pos m) + e)%Z
  /\ ((0 <= e)%Z /\ n = (Z.pos m * 2 ^ e)%Z
      \/ (e < 0)%Z /\ Z.pos m = (n * 2 ^ (- e))%Z).
Proof.
  unfold integral_value.
  destruct (Z.leb_spec 0 e) as [He|He].
  - intros H.
    assert (Hn : n = (Z.pos m * 2 ^ e)%Z) by congruence.
    clear H. subst n.
    assert (Hp : (0 < 2 ^ e)%Z) by (apply Z.pow_pos_nonneg; lia).
    split; [apply Z.mul_pos_pos; lia|].
    split; [rewrite Z.log2_mul_pow2; lia|].
    left. now split.
  - destruct (Z.eqb_spec (Z.pos m mod 2 ^ (- e)) 0) as [Hmod|_];
      [|discriminate].
    intros H.
    assert (Hn' : n = (Z.pos m / 2 ^ (- e))%Z) by congruence.
    clear H. subst n.
    assert (Hp : (0 < 2 ^ (- e))%Z) by (apply Z.pow_pos_nonneg; lia).
    pose proof (Z.div_mod (Z.pos m) (2 ^ (- e))) as Hdm.
    rewrite Hmod in Hdm.
    assert (Hm : Z.pos m = (Z.pos m / 2 ^ (- e) * 2 ^ (- e))%Z) by lia.
    assert (Hn : (0 < Z.pos m / 2 ^ (- e))%Z) by nia.
    split; [exact Hn|]. split; [|right; now split].
    rewrite Hm at 2. rewrite Z.log2_mul_pow2; lia.
Qed.

(** A binary64 number is the only one with its sign and its integral
    value. *)
Lemma integral_value_inj (s : bool) (m m' : positive) (e e' n : Z) :
  valid_binary (S754_finite s m e) = true ->
  valid_binary (S754_finite s m' e') = true ->
  integral_value m e = Some n ->
  integral_value m' e' = Some n ->
  m = m' /\ e = e'.
Proof.
  unfold SpecFloat.valid_binary, bounded, canonical_mantissa, fexp.
  rewrite !andb_true_iff, !Z.eqb_eq, !digits2_pos_log2.
  intros [Hc _] [Hc' _] Hn Hn'.
  apply integral_value_spec in Hn, Hn'.
  destruct Hn as (Hpos & Hlog & Hn), Hn' as (_ & Hlog' & Hn').
  assert (He : e = e') by lia. subst e'.
  split; [|reflexivity].
  destruct Hn as [[He Hn]|[He Hn]], Hn' as [[He' Hn']|[He' Hn']]; try lia.
  assert (Hp : (0 < 2 ^ e)%Z) by (apply Z.pow_pos_nonneg; lia).
  assert (H : Z.pos m = Z.pos m') by nia. now injection H.
Qed.

(** *** The four classes *)

Lemma class_of_non_finite (x : float) :
  class_of x = NonFinite <-> is_finite x = false.
Proof.
  unfold class_of. rewrite is_finite_Prim2SF.
  destruct (Prim2SF x) as [s|s| |s m e]; try (split; (reflexivity || discriminate)).
  destruct (integral_value m e) as [n|]; [destruct (n <? 2 ^ 53)%Z|];
    split; discriminate.
Qed.

Lemma class_of_zero (x : float) : class_of x = Zero <-> is_zero x = true.
Proof.
  unfold class_of. rewrite is_zero_Prim2SF.
  destruct (Prim2SF x) as [s|s| |s m e]; try (split; (reflexivity || discriminate)).
  destruct (integral_value m e) as [n|]; [destruct (n <? 2 ^ 53)%Z|];
    split; discriminate.
Qed.

Lemma class_of_small_integer (x : float) (s : bool) (n : Z) :
  class_of x = SmallInteger s n -> (0 < n < 2 ^ 53)%Z.
Proof.
  unfold class_of.
  destruct (Prim2SF x) as [s'|s'| |s' m e]; try discriminate.
  destruct (integral_value m e) as [n'|] eqn:Hn; [|discriminate].
  destruct (Z.ltb_spec n' (2 ^ 53)) as [Hlt|_]; [|discriminate].
  intros [= _ <-]. apply integral_value_spec in Hn. lia.
Qed.

Lemma class_of_small_integer_inj (x y : float) (s : bool) (n : Z) :
  class_of x = SmallInteger s n -> class_of y = SmallInteger s n -> x = y.
Proof.
  unfold class_of. intros Hx Hy.
  pose proof (Prim2SF_valid x) as Vx. pose proof (Prim2SF_valid y) as Vy.
  apply Prim2SF_inj.
  destruct (Prim2SF x) as [sx|sx| |sx mx ex]; try discriminate.
  destruct (Prim2SF y) as [sy|sy| |sy my ey]; try discriminate.
  destruct (integral_value mx ex) as [nx|] eqn:Hnx; [|discriminate].
  destruct (integral_value my ey) as [ny|] eqn:Hny; [|discriminate].
  destruct (nx <? 2 ^ 53)%Z; [|discriminate].
  destruct (ny <? 2 ^ 53)%Z; [|discriminate].
  injection Hx as -> ->. injection Hy as -> ->.
  destruct (integral_value_inj s mx my ex ey n Vx Vy Hnx Hny) as [-> ->].
  reflexivity.
Qed.

Section NumberTexts.

Context {platform : Platform}.

Lemma number_text_by_class (x : float) :
  number_text x
  = match class_of x with
    | NonFinite => "null"
    | Zero => "0"
    | SmallInteger s n => (if s then "-" else "") ++ decimal n
    | Other => Number_digits x
    end.
Proof.
  unfold number_text, class_of. cbn [JSON_stringify].
  rewrite is_finite_Prim2SF. unfold Number_toString.
  destruct (Prim2SF x) as [s|s| |s m e]; try reflexivity.
  destruct (integral_value m e) as [n|]; [|reflexivity].
  now destruct (n <? 2 ^ 53)%Z.
Qed.

(** Two numbers that are alike are written alike, on every platform. *)
Lemma alike_same_text (x y : float) :
  alike x y -> number_text x = number_text y.
Proof.
  intros [->|[[Hx Hy]|[Hx Hy]]]; [reflexivity| |].
  - apply class_of_zero in Hx, Hy.
    now rewrite !number_text_by_class, Hx, Hy.
  - unfold number_text. cbn [JSON_stringify]. now rewrite Hx, Hy.
Qed.

Hypothesis digits_tell_apart : digits_distinguish.

(** And two numbers that are written alike are alike. *)
Lemma same_text_alike (x y : float) :
  number_text x = number_text y -> alike x y.
Proof.
  destruct digits_tell_apart as (Hinj & Hnull & Hint).
  assert (Hrange : (0 <= 0 < 2 ^ 53)%Z) by lia.
  rewrite !number_text_by_class.
  pose proof (class_of_small_integer x) as Hsx.
  pose proof (class_of_small_integer y) as Hsy.
  pose proof (class_of_small_integer_inj x y) as Hsame.
  pose proof (Hnull x) as Hnx. pose proof (Hnull y) as Hny.
  pose proof (Hint x) as Hix. pose proof (Hint y) as Hiy.
  pose proof (Hinj x y) as Hxy.
  pose proof (proj1 (class_of_non_finite x)) as Hfx.
  pose proof (proj1 (class_of_non_finite y)) as Hfy.
  pose proof (proj1 (class_of_zero x)) as Hzx.
  pose proof (proj1 (class_of_zero y)) as Hzy.
  unfold digits_asked in *.
  destruct (class_of x) as [| |sx nx|], (class_of y) as [| |sy ny|];
    intros H.
  - right. right. split; [now apply Hfx|now apply Hfy].
  - discriminate H.
  - exfalso. apply (f_equal (free_of "n")) in H.
    rewrite signed_decimal_free_of in H by reflexivity. discriminate H.
  - exfalso. now apply Hny.
  - discriminate H.
  - right. left. split; [now apply Hzx|now apply Hzy].
  - exfalso. specialize (Hsy sy ny eq_refl).
    apply (signed_decimal_inj false sy 0 ny) in H; lia.
  - exfalso. symmetry in H.
    exact (Hiy false 0%Z eq_refl Hrange H).
  - exfalso. apply (f_equal (free_of "n")) in H.
    rewrite signed_decimal_free_of in H by reflexivity. discriminate H.
  - exfalso. specialize (Hsx sx nx eq_refl).
    apply (signed_decimal_inj sx false nx 0) in H; lia.
  - specialize (Hsx sx nx eq_refl). specialize (Hsy sy ny eq_refl).
    apply signed_decimal_inj in H; [|lia|lia].
    destruct H as [-> ->]. left. now apply (Hsame sy ny).
  - exfalso. specialize (Hsx sx nx eq_refl). symmetry in H.
    apply (Hiy sx nx eq_refl) in H; [exact H|lia].
  - exfalso. now apply Hnx.
  - exfalso. exact (Hix false 0%Z eq_refl Hrange H).
  - exfalso. specialize (Hsy sy ny eq_refl).
    apply (Hix sy ny eq_refl) in H; [exact H|lia].
  - left. now apply Hxy.
Qed.

Lemma same_texts_alike (v' v : vector) :
  map number_text v' = map number_text v <-> Forall2 alike v' v.
Proof.
  split.
  - revert v. induction v' as [|x v' IH]; intros [|y v] H;
      try discriminate; [constructor|].
    cbn [map] in H. injection H as Hx Hv.
    constructor; [now apply same_text_alike|now apply IH].
  - intros H. induction H as [|x y v' v Hxy _ IH]; [reflexivity|].
    cbn [map]. now rewrite (alike_same_text x y Hxy), IH.
Qed.

(** Field by field: the records that [JSON.stringify] writes alike are the
    records that are alike. *)
Lemma same_number_texts_alike (t' t : StateTransition) :
  same_number_texts t' t <-> alike_records t' t.
Proof.
  unfold same_number_texts, alike_records.
  rewrite !same_texts_alike.
  split; intros (Hp & Hn & Hi & Ho & Ht); repeat split; try assumption.
  - now apply same_text_alike.
  - now apply alike_same_text.
Qed.

End NumberTexts.

(** *** The stand-in platform tells numbers apart *)

Lemma test_digits_layout (x : float) :
  digits_asked x = true ->
  exists (s : bool) (m : positive) (e : Z),
    Prim2SF x = S754_finite s m e
    /\ test_digits x
       = ((if s then "-" else "") ++ decimal (Z.pos m))
         ++ String "p" (Z_toString e).
Proof.
  unfold digits_asked, class_of, test_digits.
  destruct (Prim2SF x) as [s|s| |s m e]; try discriminate.
  intros _. exists s, m, e. split; [reflexivity|].
  now rewrite append_assoc.
Qed.

Lemma test_digits_distinguish : @digits_distinguish test_platform.
Proof.
  unfold digits_distinguish. cbn [Number_digits test_platform].
  split; [|split].
  - intros x y Hx Hy H.
    destruct (test_digits_layout x Hx) as (sx & mx & ex & Ex & Tx).
    destruct (test_digits_layout y Hy) as (sy & my & ey & Ey & Ty).
    rewrite Tx, Ty in H.
    apply delimited_split in H;
      try (apply signed_decimal_free_of; reflexivity).
    destruct H as (Hm & _ & He).
    apply signed_decimal_inj in Hm; [|lia|lia].
    destruct Hm as [-> Hm]. injection Hm as ->.
    apply Z_toString_inj in He. subst ey.
    apply Prim2SF_inj. now rewrite Ex, Ey.
  - intros x Hx H.
    destruct (test_digits_layout x Hx) as (s & m & e & _ & T).
    rewrite T in H. apply (f_equal (free_of "p")) in H.
    rewrite free_of_app in H. cbn [free_of] in H.
    rewrite Ascii.eqb_refl in H. cbn in H.
    now rewrite andb_false_r in H.
  - intros x s n Hx Hn H.
    destruct (test_digits_layout x Hx) as (s' & m & e & _ & T).
    rewrite T in H. apply (f_equal (free_of "p")) in H.
    rewrite free_of_app in H. cbn [free_of] in H.
    rewrite Ascii.eqb_refl in H. cbn [negb andb] in H.
    rewrite andb_false_r in H.
    rewrite signed_decimal_free_of in H by reflexivity. discriminate H.
Qed.
(** ** Commitments: [transition] and [verifyTransition] *)

Section Commitment.

Context {platform : Platform}.

(** What a call that returned put in the hash and signature fields. *)
Lemma transition_commitment (inp : vector) (now : float)
    (this this' : StateSpaceModel) (t : StateTransition) :
  transition inp now this = (Ok t, this') ->
  hash t = sha256_hex (data_text t)
  /\ (exists sign : string -> string -> string,
        sign_base64 = Ok sign
        /\ signature t = sign (privateKey (keyPair this)) (hash t))
  /\ keyPair this' = keyPair this.
Proof.
  unfold transition, signData.
  destruct (negb _); [discriminate|].
  destruct (next_state_and_output _ _ _) as [[next out]|e]; [|discriminate].
  destruct sign_base64 as [sign|e]; cbn [bind]; [|discriminate].
  intros H. inversion H; subst; clear H.
  split; [reflexivity|]. split; [|reflexivity].
  now exists sign.
Qed.

(** Where [Sign] throws, no call returns a record. *)
Lemma transition_needs_signing (inp : vector) (now : float)
    (this this' : StateSpaceModel) (t : StateTransition) (e : exn) :
  sign_base64 = Throw e -> transition inp now this <> (Ok t, this').
Proof.
  intros Hs Hcall.
  destruct (transition_commitment inp now this this' t Hcall)
    as (_ & (sign & Hsign & _) & _).
  congruence.
Qed.

(** [verifyTransition] in one formula. *)
Lemma verifyTransition_spec (t : StateTransition) (this : StateSpaceModel) :
  verifyTransition t this
  = String.eqb (sha256_hex (data_text t)) (hash t)
    && match verify_base64 with
       | Ok verify => verify (publicKey (keyPair this)) (hash t) (signature t)
       | Throw _ => false
       end.
Proof.
  unfold verifyTransition, hashState, data_text.
  now destruct (String.eqb _ _).
Qed.

(** Where [Verify] throws, no record is accepted. *)
Lemma verifyTransition_needs_verifying (t : StateTransition)
    (this : StateSpaceModel) (e : exn) :
  verify_base64 = Throw e -> verifyTransition t this = false.
Proof.
  intros Hv. rewrite verifyTransition_spec, Hv. apply andb_false_r.
Qed.

Lemma verify_own_record (inp : vector) (now : float)
    (this this' : StateSpaceModel) (t : StateTransition) :
  signs_correctly (keyPair this) ->
  transition inp now this = (Ok t, this') ->
  verifyTransition t this' = true.
Proof.
  intros (sign & verify & Hsign & Hverify & Hkeys) Hcall.
  destruct (transition_commitment inp now this this' t Hcall)
    as (Hhash & (sign' & Hsign' & Hsig) & Hkp).
  assert (sign' = sign) by congruence. subst sign'.
  rewrite verifyTransition_spec, Hverify, Hkp, Hsig, <- Hhash.
  now rewrite String.eqb_refl, Hkeys.
Qed.

Lemma verify_changed_text (t t' : StateTransition) (this : StateSpaceModel) :
  hash t = sha256_hex (data_text t) ->
  data_text t' <> data_text t ->
  no_collision (data_text t') (data_text t) ->
  verifyTransition (with_commitment_of t' t) this = false.
Proof.
  intros Hhash Htext Hfree.
  rewrite verifyTransition_spec.
  change (data_text (with_commitment_of t' t)) with (data_text t').
  change (hash (with_commitment_of t' t)) with (hash t).
  destruct (String.eqb_spec (sha256_hex (data_text t')) (hash t)) as [Heq|_];
    [|reflexivity].
  exfalso. apply Htext, Hfree. now rewrite Heq.
Qed.

(** A change that leaves the hashed text as it was is not seen. *)
Lemma verify_same_text (t t' : StateTransition) (this : StateSpaceModel) :
  data_text t' = data_text t ->
  verifyTransition (with_commitment_of t' t) this = verifyTransition t this.
Proof.
  intros Htext. rewrite !verifyTransition_spec.
  change (data_text (with_commitment_of t' t)) with (data_text t').
  now rewrite Htext.
Qed.


End Commitment.

Lemma test_keys_sign_correctly : @signs_correctly test_platform test_keys.
Proof.
  eexists _, _. split; [reflexivity|]. split; [reflexivity|].
  intros data. apply String.eqb_refl.
Qed.

Lemma test_hash_no_collision (s1 s2 : string) :
  @no_collision test_platform s1 s2.
Proof.
  intros H. cbn in H. now inversion H.
Qed.

Lemma plain_app (a b : string) :
  plain a = true -> plain b = true -> plain (a ++ b) = true.
Proof.
  intros Ha Hb.
  apply plain_spec in Ha. destruct Ha as (Hne & Hc & Hk & Hr).
  apply plain_spec in Hb. destruct Hb as (_ & Hc' & Hk' & Hr').
  unfold plain. rewrite !free_of_app, Hc, Hk, Hr, Hc', Hk', Hr'.
  destruct a; [contradiction|reflexivity].
Qed.

Lemma Z_toString_plain (n : Z) : plain (Z_toString n) = true.
Proof.
  unfold Z_toString.
  destruct (n <? 0)%Z; [apply plain_minus|]; apply decimal_plain.
Qed.

Lemma test_digits_are_plain : @digits_are_plain test_platform.
Proof.
  intros x. cbn [Number_digits test_platform]. unfold test_digits.
  destruct (Prim2SF x) as [s| [|] | |s m e]; try reflexivity.
  assert (H : plain (decimal (Z.pos m) ++ "p" ++ Z_toString e) = true).
  { apply plain_app; [apply decimal_plain|].
    apply (plain_app "p"); [reflexivity|apply Z_toString_plain]. }
  destruct s; [now apply plain_minus|exact H].
Qed.

Lemma not_alike_0_1 : ~ alike (next_up 0.1%float) 0.1%float.
Proof.
  intros [H|[[H _]|[H _]]]; [|discriminate H|discriminate H].
  apply (f_equal (fun x => Leibniz.eqb x 0.1%float)) in H.
  vm_compute in H. discriminate H.
Qed.


(** ** The audit log *)

Section AuditLogProperties.

Context {platform : Platform}.

(** One append, written out. *)
Lemma logAuditEvent_rows (eventType : string) (eventData : json) (now : Z)
    (this : AxiomServer) :
  audit_logs (db (logAuditEvent eventType eventData now this))
  = (audit_logs (db this)
       ++ [ {| event_type := eventType;
               event_data := JSON_stringify eventData;
               event_hash :=
                 sha256_hex (eventType ++ JSON_stringify eventData
                               ++ or_empty (getLastAuditLogHash (db this)));
               prev_log_hash := getLastAuditLogHash (db this);
               created_at := now |} ])%list.
Proof.
  reflexivity.
Qed.

(** C8 (as amended). The first entry appended to an empty audit log has
    [prev_log_hash] equal to [null]: the code defines no genesis sentinel and
    marks the absence of a predecessor by [null]; in the hashed text the
    missing predecessor contributes the empty string. *)
Theorem first_entry_has_null_prev_hash (eventType : string) (eventData : json)
    (now : Z) (this : AxiomServer) :
  audit_logs (db this) = [] ->
  audit_logs (db (logAuditEvent eventType eventData now this))
  = [ {| event_type := eventType;
         event_data := JSON_stringify eventData;
         event_hash := sha256_hex (eventType ++ JSON_stringify eventData ++ "");
         prev_log_hash := None;
         created_at := now |} ].
Proof.
  intros Hempty. rewrite logAuditEvent_rows.
  unfold getLastAuditLogHash. rewrite Hempty. reflexivity.
Qed.

(** C10. The event hash of every append is the SHA-256 of the plain
    concatenation of the event type, the serialized payload and the previous
    hash, a [null] previous hash counting as the empty string; nothing marks
    where one part ends.  So two appends to the same log that differ in event
    type and in payload, here type [job1] with payload [2] and type [job]
    with payload [12], get the same event hash, whatever the hash function,
    the log and the clock. *)
Theorem event_hash_preimage_is_unseparated (now1 now2 : Z)
    (this : AxiomServer) :
  (forall (eventType : string) (eventData : json) (now : Z),
     option_map event_hash
       (last_row (audit_logs (db (logAuditEvent eventType eventData now this))))
     = Some (sha256_hex (eventType ++ JSON_stringify eventData
                           ++ or_empty (getLastAuditLogHash (db this)))))
  /\ exists e1 e2 : AuditLog,
       last_row (audit_logs (db (logAuditEvent "job1" (JNumber 2) now1 this)))
       = Some e1
       /\ last_row (audit_logs (db (logAuditEvent "job" (JNumber 12) now2 this)))
          = Some e2
       /\ event_type e1 <> event_type e2
       /\ event_data e1 <> event_data e2
       /\ prev_log_hash e1 = prev_log_hash e2
       /\ event_hash e1 = event_hash e2.
Proof.
  split.
  - intros eventType eventData now.
    rewrite logAuditEvent_rows. unfold last_row.
    now rewrite rev_app_distr.
  - eexists _, _.
    split; [rewrite logAuditEvent_rows; unfold last_row;
            rewrite rev_app_distr; reflexivity|].
    split; [rewrite logAuditEvent_rows; unfold last_row;
            rewrite rev_app_distr; reflexivity|].
    cbn [event_type event_data prev_log_hash event_hash].
    split; [discriminate|]. split; [vm_compute; discriminate|].
    split; reflexivity.
Qed.

(** *** Where the chain does hold *)

(** The row the query returns is in the table and none is newer. *)
Lemma order_by_created_at_desc_limit_1_max (rows : list AuditLog)
    (r : AuditLog) :
  order_by_created_at_desc_limit_1 rows = Some r ->
  In r rows /\ forall x, In x rows -> (created_at x <= created_at r)%Z.
Proof.
  revert r. induction rows as [|a rows IH]; intros r H; [discriminate|].
  cbn [order_by_created_at_desc_limit_1] in H.
  destruct (order_by_created_at_desc_limit_1 rows) as [r'|] eqn:Hrest.
  - destruct (IH r' eq_refl) as [Hin Hmax].
    destruct (Z.ltb_spec (created_at a) (created_at r')) as [Hlt|Hge];
      inversion H; subst; clear H.
    + split; [now right|].
      intros x [<-|Hx]; [lia|now apply Hmax].
    + split; [now left|].
      intros x [<-|Hx]; [lia|]. specialize (Hmax x Hx). lia.
  - inversion H; subst; clear H.
    destruct rows as [|b rows]; [|cbn in Hrest;
      destruct (order_by_created_at_desc_limit_1 rows) as [r''|];
      [destruct (_ <? _)%Z|]; discriminate].
    split; [now left|]. intros x [<-|[]]. lia.
Qed.

Lemma order_by_created_at_desc_limit_1_none (rows : list AuditLog) :
  order_by_created_at_desc_limit_1 rows = None -> rows = [].
Proof.
  destruct rows as [|a rows]; [reflexivity|].
  cbn. destruct (order_by_created_at_desc_limit_1 rows) as [r'|];
    [destruct (_ <? _)%Z|]; discriminate.
Qed.

Lemma strictly_increasing_head (a : AuditLog) (rows : list AuditLog) :
  strictly_increasing (a :: rows) ->
  strictly_increasing rows
  /\ forall x, In x rows -> (created_at a < created_at x)%Z.
Proof.
  revert a. induction rows as [|b rows IH]; intros a H.
  - split; [exact I|intros x []].
  - destruct H as [Hab Hrest]. split; [exact Hrest|].
    destruct (IH b Hrest) as [_ Hb].
    intros x [<-|Hx]; [exact Hab|]. specialize (Hb x Hx). lia.
Qed.

(** While [created_at] grows strictly, the query returns the row inserted
    last. *)
Lemma order_by_created_at_is_last_row (rows : list AuditLog) :
  strictly_increasing rows ->
  order_by_created_at_desc_limit_1 rows = last_row rows.
Proof.
  induction rows as [|a rows IH]; intros Hinc; [reflexivity|].
  destruct (strictly_increasing_head a rows Hinc) as [Hrest Hlt].
  cbn [order_by_created_at_desc_limit_1]. rewrite (IH Hrest).
  unfold last_row. cbn [rev].
  destruct (hd_error (rev rows)) as [r|] eqn:Hlast.
  - assert (Hin : In r rows).
    { apply in_rev. destruct (rev rows); [discriminate|].
      inversion Hlast; subst. now left. }
    apply Hlt, Z.ltb_lt in Hin. rewrite Hin.
    destruct (rev rows); [discriminate|]. cbn in *. congruence.
  - destruct (rev rows) eqn:Hrev; [|discriminate].
    reflexivity.
Qed.

Lemma linked_snoc (rows : list AuditLog) (e : AuditLog) :
  linked rows ->
  (forall r, last_row rows = Some r -> prev_log_hash e = Some (event_hash r)) ->
  linked (rows ++ [e]).
Proof.
  induction rows as [|a rows IH]; intros Hl Hprev; [exact I|].
  destruct rows as [|b rows].
  - cbn. split; [|exact I]. now apply Hprev.
  - destruct Hl as [Hab Hrest].
    change (linked (a :: b :: (rows ++ [e])%list)).
    split; [exact Hab|].
    apply IH; [exact Hrest|].
    intros r Hr. apply Hprev.
    unfold last_row in *. cbn [rev] in *.
    destruct (rev rows ++ [b])%list eqn:Hrev.
    + destruct (rev rows); discriminate.
    + cbn [app hd_error] in *. exact Hr.
Qed.

Lemma strictly_increasing_snoc (rows : list AuditLog) (e : AuditLog) :
  strictly_increasing rows ->
  (forall r, last_row rows = Some r -> (created_at r < created_at e)%Z) ->
  strictly_increasing (rows ++ [e]).
Proof.
  induction rows as [|a rows IH]; intros Hl Hprev; [exact I|].
  destruct rows as [|b rows].
  - cbn. split; [|exact I]. now apply Hprev.
  - destruct Hl as [Hab Hrest].
    change (strictly_increasing (a :: b :: (rows ++ [e])%list)).
    split; [exact Hab|].
    apply IH; [exact Hrest|].
    intros r Hr. apply Hprev.
    unfold last_row in *. cbn [rev] in *.
    destruct (rev rows ++ [b])%list eqn:Hrev.
    + destruct (rev rows); discriminate.
    + cbn [app hd_error] in *. exact Hr.
Qed.

(** One append to a linked log whose clock has grown so far, read at a
    later clock value, leaves the log linked. *)
Lemma logAuditEvent_keeps_chain (eventType : string) (eventData : json)
    (now : Z) (this : AxiomServer) :
  (forall s, sha256_hex s <> "") ->
  linked (audit_logs (db this)) ->
  strictly_increasing (audit_logs (db this)) ->
  (forall r, In r (audit_logs (db this)) -> event_hash r <> "") ->
  (forall r, last_row (audit_logs (db this)) = Some r ->
             (created_at r < now)%Z) ->
  let rows' := audit_logs (db (logAuditEvent eventType eventData now this)) in
  linked rows'
  /\ strictly_increasing rows'
  /\ (forall r, In r rows' -> event_hash r <> "")
  /\ option_map created_at (last_row rows') = Some now.
Proof.
  intros Hhash Hlinked Hinc Hne Hnow rows'. subst rows'.
  rewrite logAuditEvent_rows.
  assert (Hprev : forall r, last_row (audit_logs (db this)) = Some r ->
                            getLastAuditLogHash (db this)
                            = Some (event_hash r)).
  { intros r Hr. unfold getLastAuditLogHash.
    rewrite (order_by_created_at_is_last_row _ Hinc), Hr.
    unfold or_null.
    destruct (String.eqb_spec (event_hash r) "") as [Hempty|_];
      [|reflexivity].
    exfalso. apply (Hne r); [|exact Hempty].
    apply in_rev. unfold last_row in Hr.
    destruct (rev (audit_logs (db this))); [discriminate|].
    inversion Hr; subst. now left. }
  split; [|split; [|split]].
  - apply linked_snoc; [exact Hlinked|]. intros r Hr. cbn [prev_log_hash].
    now apply Hprev.
  - apply strictly_increasing_snoc; [exact Hinc|]. intros r Hr.
    cbn [created_at]. now apply Hnow.
  - intros r Hr. apply in_app_or in Hr. destruct Hr as [Hr|[<-|[]]].
    + now apply Hne.
    + cbn [event_hash]. apply Hhash.
  - unfold last_row. now rewrite rev_app_distr.
Qed.

Lemma log_all_keeps_chain (calls : list (string * json * Z)) :
  forall this : AxiomServer,
    (forall s, sha256_hex s <> "") ->
    linked (audit_logs (db this)) ->
    strictly_increasing (audit_logs (db this)) ->
    (forall r, In r (audit_logs (db this)) -> event_hash r <> "") ->
    clock_increases_after
      (option_map created_at (last_row (audit_logs (db this)))) calls ->
    linked (audit_logs (db (log_all calls this))).
Proof.
  induction calls as [|[[eventType eventData] now] calls IH];
    intros this Hhash Hlinked Hinc Hne Hclock; [exact Hlinked|].
  destruct Hclock as [Hfirst Hrest].
  destruct (logAuditEvent_keeps_chain eventType eventData now this)
    as (Hl & Hi & Hn & Hlast); try assumption.
  { intros r Hr. rewrite Hr in Hfirst. exact Hfirst. }
  change (log_all ((eventType, eventData, now) :: calls) this)
    with (log_all calls (logAuditEvent eventType eventData now this)).
  apply IH; try assumption.
  rewrite Hlast. exact Hrest.
Qed.

(** X13. Appends to an empty log, each reading a clock value greater than
    the one before, build a log in which every entry after the first names
    the hash of the entry inserted just before it. *)
Theorem appends_with_increasing_clock_are_linked
    (calls : list (string * json * Z)) (this : AxiomServer) :
  (forall s, sha256_hex s <> "") ->
  audit_logs (db this) = [] ->
  clock_increases_after None calls ->
  linked (audit_logs (db (log_all calls this))).
Proof.
  intros Hhash Hempty Hclock.
  apply log_all_keeps_chain; rewrite ?Hempty; try exact I; try assumption.
  intros r [].
Qed.

End AuditLogProperties.

Lemma first_entry_has_null_prev_hash_witness :
  audit_logs (db empty_server) = []
  /\ option_map prev_log_hash
       (last_row (audit_logs (db (@logAuditEvent test_platform "system_reset"
                                    (JObject []) 1700000000000 empty_server))))
     = Some None.
Proof.
  split; [reflexivity|].
  rewrite (@first_entry_has_null_prev_hash test_platform "system_reset"
             (JObject []) 1700000000000 empty_server eq_refl).
  reflexivity.
Defined.

(** C8 as stated fails: the first entry of a fresh log has [prev_log_hash]
    [null], so it equals no sentinel value, whatever string the sentinel
    would be. *)
Lemma first_entry_prev_hash_is_no_sentinel :
  exists e : AuditLog,
    audit_logs (db (@logAuditEvent test_platform "system_reset" (JObject [])
                      1700000000000 empty_server))
    = [e]
    /\ prev_log_hash e = None
    /\ forall genesis : string, prev_log_hash e <> Some genesis.
Proof.
  eexists. split; [vm_compute; reflexivity|].
  cbn [prev_log_hash]. split; [reflexivity|]. discriminate.
Qed.

(** C4 fails on the code when a later append reads a clock value that is not
    greater than an earlier one.  Three appends to an empty log, at clock
    readings ...010, ...005 (the clock was set back) and ...007: the third
    entry names the hash of the first entry, which has the greatest
    [created_at], not the hash of the second, which precedes it. *)
Lemma third_entry_skips_its_predecessor :
  exists e1 e2 e3 : AuditLog,
    audit_logs
      (db (@log_all test_platform
             [ ("inference_started", JObject [], 1700000000010%Z);
               ("inference_completed", JObject [], 1700000000005%Z);
               ("system_reset", JObject [], 1700000000007%Z) ]
             empty_server))
    = [e1; e2; e3]
    /\ prev_log_hash e1 = None
    /\ prev_log_hash e2 = Some (event_hash e1)
    /\ prev_log_hash e3 = Some (event_hash e1)
    /\ prev_log_hash e3 <> Some (event_hash e2)
    /\ ~ linked [e1; e2; e3].
Proof.
  eexists _, _, _. split; [vm_compute; reflexivity|].
  cbn [prev_log_hash event_hash].
  split; [reflexivity|]. split; [reflexivity|]. split; [reflexivity|].
  split; [discriminate|].
  intros [_ [H _]]. cbn in H. discriminate H.
Qed.

(** The same happens without setting the clock back, when two appends fall
    in the same millisecond and the query resolves the tie for the row of
    lower rowid: the entry appended next names the first of the two. *)
Lemma same_millisecond_appends_fork :
  exists e1 e2 e3 : AuditLog,
    audit_logs
      (db (@log_all test_platform
             [ ("inference_started", JObject [], 1700000000010%Z);
               ("inference_completed", JObject [], 1700000000010%Z);
               ("system_reset", JObject [], 1700000000011%Z) ]
             empty_server))
    = [e1; e2; e3]
    /\ prev_log_hash e2 = Some (event_hash e1)
    /\ prev_log_hash e3 = Some (event_hash e1)
    /\ prev_log_hash e3 <> Some (event_hash e2).
Proof.
  eexists _, _, _. split; [vm_compute; reflexivity|].
  cbn [prev_log_hash event_hash].
  split; [reflexivity|]. split; [reflexivity|]. discriminate.
Qed.

(** * Further properties *)

(** ** [matrixMultiply] in general *)

Lemma forM_map_ok {T U : Type} (f : T -> result U) (g : T -> U) (l : list T) :
  (forall x, In x l -> f x = Ok (g x)) ->
  forM f l = Ok (map g l).
Proof.
  induction l as [|x l IH]; intros Hf; [reflexivity|].
  cbn [forM map]. rewrite (Hf x (or_introl eq_refl)). cbn [bind].
  rewrite IH; [reflexivity|]. intros y Hy. apply Hf. now right.
Qed.

Lemma forM_returns {T U : Type} (f : T -> result U) (Q : U -> Prop)
    (l : list T) :
  (forall x, In x l -> exists y, f x = Ok y /\ Q y) ->
  exists ys, forM f l = Ok ys /\ List.length ys = List.length l
             /\ forall y, In y ys -> Q y.
Proof.
  induction l as [|x l IH]; intros Hf.
  - exists []. repeat split. intros y [].
  - destruct (Hf x (or_introl eq_refl)) as (y & Hy & HQ).
    destruct IH as (ys & Hys & Hlen & HQs);
      [intros z Hz; apply Hf; now right|].
    exists (y :: ys). cbn [forM]. rewrite Hy. cbn [bind]. rewrite Hys.
    cbn [bind List.length]. repeat split; [now rewrite Hlen|].
    intros z [<-|Hz]; [exact HQ|now apply HQs].
Qed.

Lemma foldM_returns {T U : Type} (body : U -> T -> result U) (l : list T) :
  (forall acc x, In x l -> exists v, body acc x = Ok v) ->
  forall acc, exists v, foldM body l acc = Ok v.
Proof.
  induction l as [|x l IH]; intros Hbody acc.
  - now exists acc.
  - destruct (Hbody acc x (or_introl eq_refl)) as (v & Hv).
    cbn [foldM]. rewrite Hv. cbn [bind].
    apply IH. intros a y Hy. apply Hbody. now right.
Qed.

Lemma foldM_app {T U : Type} (body : U -> T -> result U) (l1 l2 : list T) :
  forall acc,
    foldM body (l1 ++ l2)%list acc
    = (acc' <- foldM body l1 acc ;; foldM body l2 acc').
Proof.
  induction l1 as [|x l1 IH]; intros acc; [reflexivity|].
  cbn [app foldM]. destruct (body acc x) as [v|e]; cbn [bind]; [apply IH|].
  reflexivity.
Qed.

(** X1. [matrixMultiply(A, B)] returns exactly when both matrices have a
    first row and either the first row of [B] is empty or [B] has at least
    as many rows as the first row of [A] has entries; the result then has as
    many rows as [A], each as long as the first row of [B].  In every other
    case it throws a [TypeError]. *)
Theorem matrixMultiply_returns_iff (A B : matrix) :
  if can_multiply A B
  then exists M : matrix,
         matrixMultiply A B = Ok M
         /\ List.length M = List.length A
         /\ forall row, In row M ->
                        List.length row = List.length (hd [] B)
  else matrixMultiply A B = Throw TypeError.
Proof.
  unfold can_multiply, matrixMultiply.
  destruct A as [|A0 A']; [reflexivity|].
  destruct B as [|B0 B']; [reflexivity|].
  set (A := A0 :: A'). set (B := B0 :: B').
  change (array_get A 0) with (Some A0).
  change (array_get B 0) with (Some B0).
  cbn [defined bind hd].
  destruct (Nat.eqb (List.length B0) 0 || Nat.leb (List.length A0) (List.length B))%bool
    eqn:Hcan.
  - set (body := fun i : nat => forM _ (seq 0 (List.length B0))).
    destruct (forM_returns body
                (fun row => List.length row = List.length B0)
                (seq 0 (List.length A))) as (M & HM & Hlen & Hrows).
    + intros i Hi. apply in_seq in Hi.
      destruct (nth_error A i) as [Ai|] eqn:HAi;
        [|apply nth_error_None in HAi; lia].
      subst body. cbv beta.
      destruct (forM_returns
                  (fun j : nat =>
                     foldM (fun (acc : float) (k : nat) =>
                              Ai0 <- defined (array_get A i) ;;
                              Bk <- defined (array_get B k) ;;
                              Ok (acc + to_number (array_get Ai0 k)
                                        * to_number (array_get Bk j))%float)
                           (seq 0 (List.length A0)) 0%float)
                  (fun _ => True) (seq 0 (List.length B0)))
        as (row & Hrow & Hrowlen & _).
      * intros j Hj. apply in_seq in Hj.
        destruct (foldM_returns
                    (fun (acc : float) (k : nat) =>
                       Ai0 <- defined (array_get A i) ;;
                       Bk <- defined (array_get B k) ;;
                       Ok (acc + to_number (array_get Ai0 k)
                                 * to_number (array_get Bk j))%float)
                    (seq 0 (List.length A0))) with (acc := 0%float)
          as (v & Hv).
        -- intros acc k Hk. apply in_seq in Hk.
           unfold array_get at 1. rewrite HAi. cbn [defined bind].
           destruct (nth_error B k) as [Bk|] eqn:HBk.
           ++ unfold array_get at 1. rewrite HBk. cbn [defined bind].
              eexists. reflexivity.
           ++ exfalso. apply nth_error_None in HBk.
              apply orb_true_iff in Hcan. destruct Hcan as [Hz|Hle].
              ** apply Nat.eqb_eq in Hz. lia.
              ** apply Nat.leb_le in Hle. lia.
        -- exists v. split; [exact Hv|exact I].
      * exists row. split; [exact Hrow|].
        now rewrite Hrowlen, length_seq.
    + exists M. split; [exact HM|]. split; [now rewrite Hlen, length_seq|].
      exact Hrows.
  - apply orb_false_iff in Hcan. destruct Hcan as [Hz Hle].
    apply Nat.eqb_neq in Hz. apply Nat.leb_gt in Hle.
    destruct (List.length B0) as [|p] eqn:HlenB0; [contradiction|].
    change (seq 0 (List.length A)) with (0 :: seq 1 (List.length A')).
    cbn [seq forM].
    replace (List.length A0)
      with (List.length B + (List.length A0 - List.length B)) by lia.
    rewrite seq_app, foldM_app.
    destruct (foldM_returns
                (fun (acc : float) (k : nat) =>
                   Ai0 <- defined (array_get A 0) ;;
                   Bk <- defined (array_get B k) ;;
                   Ok (acc + to_number (array_get Ai0 k)
                             * to_number (array_get Bk 0))%float)
                (seq 0 (List.length B))) with (acc := 0%float)
      as (v & Hv).
    { intros acc k Hk. apply in_seq in Hk.
      change (array_get A 0) with (Some A0). cbn [defined bind].
      destruct (nth_error B k) as [Bk|] eqn:HBk;
        [|apply nth_error_None in HBk; lia].
      unfold array_get at 1. rewrite HBk. cbn [defined bind].
      eexists. reflexivity. }
    rewrite Hv. cbn [bind].
    destruct (List.length A0 - List.length B) as [|d] eqn:Hd; [lia|].
    cbn [seq foldM Nat.add].
    change (array_get A 0) with (Some A0). cbn [defined bind].
    assert (HB : array_get B (List.length B) = None)
      by (apply nth_error_None; lia).
    rewrite HB. reflexivity.
Qed.

Lemma matrix_column_length (B : matrix) (j : nat) :
  List.length (matrix_column B j) = List.length B.
Proof.
  unfold matrix_column. apply length_map.
Qed.

(** X2. When [A] and [B] are not empty and every row of [A] is as long as
    [B] has rows, [matrixMultiply(A, B)] returns the row-by-column product:
    entry [i][j] is the dot product, accumulated from 0, of row [i] of [A]
    with column [j] of [B], for as many columns as the first row of [B] has
    entries (an entry that a shorter row of [B] lacks counts as [NaN]). *)
Theorem matrixMultiply_is_product (A B : matrix) :
  A <> [] ->
  B <> [] ->
  (forall row, In row A -> List.length row = List.length B) ->
  matrixMultiply A B = Ok (matrix_product A B).
Proof.
  intros HA HB Hrows.
  unfold matrixMultiply, matrix_product.
  destruct A as [|A0 A']; [contradiction|].
  destruct B as [|B0 B']; [contradiction|].
  set (A := A0 :: A') in *. set (B := B0 :: B') in *.
  change (array_get A 0) with (Some A0).
  change (array_get B 0) with (Some B0).
  cbn [defined bind hd].
  apply forM_seq_map.
  intros i row Hrow. cbn [Nat.add].
  assert (Hin : In row A) by (eapply nth_error_In; eassumption).
  apply forM_map_ok.
  intros j _.
  assert (Hlen : List.length A0
                 = List.length (combine row (matrix_column B j))).
  { rewrite length_combine, matrix_column_length, (Hrows row Hin),
      (Hrows A0 (or_introl eq_refl)).
    now rewrite Nat.min_id. }
  rewrite Hlen.
  rewrite (foldM_seq_fold_left (combine row (matrix_column B j))
             (fun acc p => (acc + fst p * snd p)%float)).
  - reflexivity.
  - intros acc k [a b] Hk. cbn [Nat.add fst snd].
    apply nth_error_combine in Hk. destruct Hk as [Ha Hb].
    unfold matrix_column in Hb. rewrite nth_error_map in Hb.
    destruct (nth_error B k) as [Bk|] eqn:HBk; [|discriminate].
    cbn [option_map] in Hb. inversion Hb; subst b; clear Hb.
    unfold array_get. rewrite Hrow. cbn [defined bind].
    rewrite HBk. cbn [defined bind].
    rewrite Ha. reflexivity.
Qed.

Lemma matrixMultiply_is_product_witness :
  [ [1; 2]; [3; 4]; [5; 6] ]%float <> []
  /\ [ [1; 0; 2]; [0; 1; 3] ]%float <> []
  /\ matrixMultiply [ [1; 2]; [3; 4]; [5; 6] ]%float
                    [ [1; 0; 2]; [0; 1; 3] ]%float
     = Ok [ [1; 2; 8]; [3; 4; 18]; [5; 6; 28] ]%float.
Proof.
  split; [discriminate|]. split; [discriminate|].
  rewrite (matrixMultiply_is_product
             [ [1; 2]; [3; 4]; [5; 6] ]%float
             [ [1; 0; 2]; [0; 1; 3] ]%float).
  - reflexivity.
  - discriminate.
  - discriminate.
  - intros row [<-|[<-|[<-|[]]]]; reflexivity.
Defined.

(** ** Sequences of transitions *)

Section Replays.

Context {platform : Platform}.

(** Where signing returns, a call either throws and leaves the model as it
    was, or returns a record that starts from the state before the call and
    whose next state is the state after it; configuration and keys stay. *)
Lemma transition_cases (inp : vector) (now : float) (this : StateSpaceModel)
    (sign : string -> string -> string) :
  sign_base64 = Ok sign ->
  (exists e, transition inp now this = (Throw e, this))
  \/ (exists t this',
        transition inp now this = (Ok t, this')
        /\ prevState t = currentState this
        /\ nextState t = currentState this'
        /\ config this' = config this
        /\ keyPair this' = keyPair this).
Proof.
  intros Hs. unfold transition, signData. rewrite Hs. cbn [bind].
  destruct (negb _); [left; eexists; reflexivity|].
  destruct (next_state_and_output _ _ _) as [[next out]|e];
    [|left; eexists; reflexivity].
  right. eexists _, _. repeat split.
Qed.

Lemma after_replay_keeps (inputs : list vector) :
  forall (clock : nat -> float) (k : nat) (this : StateSpaceModel),
    config (after_replay clock k inputs this) = config this
    /\ keyPair (after_replay clock k inputs this) = keyPair this.
Proof.
  induction inputs as [|inp rest IH]; intros clock k this; [now split|].
  cbn [after_replay].
  destruct (IH clock (S k) (snd (transition inp (clock k) this))) as [Hc Hk].
  destruct (transition_keeps_config inp (clock k) this) as [Hc' Hk'].
  split; congruence.
Qed.

(** X3. Where signing returns: in every sequence of calls, valid or not, the
    records of the calls that returned form a chain.  The first starts from
    the state the model had, each later one starts from the next state of
    the record before it (calls that threw in between change nothing), and
    the state the model has at the end is the next state of the last
    record. *)
Theorem replay_records_are_chained (clock : nat -> float) (k : nat)
    (inputs : list vector) (this : StateSpaceModel)
    (sign : string -> string -> string) :
  sign_base64 = Ok sign ->
  chained (currentState this) (successes (replay clock k inputs this))
  /\ getState (after_replay clock k inputs this)
     = reached (currentState this) (successes (replay clock k inputs this)).
Proof.
  intros Hs.
  revert k this. induction inputs as [|inp rest IH]; intros k this;
    [now split|].
  cbn [replay after_replay].
  destruct (transition_cases inp (clock k) this sign Hs)
    as [(e & Hcall)|(t & this' & Hcall & Hprev & Hnext & _)];
    rewrite Hcall; cbn [snd successes chained reached].
  - apply IH.
  - destruct (IH (S k) this') as [Hchain Hend].
    rewrite Hnext. split; [split; [exact Hprev|exact Hchain]|exact Hend].
Qed.

(** X4. Whatever calls of [transition] a constructed model has gone through,
    [reset] brings back the model as it was constructed: same configuration,
    same keys, state all zeros. *)
Theorem reset_after_replay (cfg : SSMConfig) (keys : KeyPair)
    (m0 : StateSpaceModel) (clock : nat -> float) (k : nat)
    (inputs : list vector) :
  new_StateSpaceModel cfg keys = Ok m0 ->
  reset (after_replay clock k inputs m0) = Ok m0.
Proof.
  unfold new_StateSpaceModel. intros Hnew.
  destruct (new_Array_fill_0 (stateSize cfg)) as [zeros|e] eqn:Hzeros;
    [|discriminate].
  cbn [bind] in Hnew. inversion Hnew; subst m0; clear Hnew.
  unfold reset.
  destruct (after_replay_keeps inputs clock k
              {| config := cfg; currentState := zeros; keyPair := keys |})
    as [Hc Hk].
  cbn [config keyPair] in Hc, Hk.
  rewrite Hc, Hk, Hzeros. reflexivity.
Qed.

Lemma verifyTransition_same_keys (t : StateTransition)
    (m1 m2 : StateSpaceModel) :
  keyPair m1 = keyPair m2 ->
  verifyTransition t m1 = verifyTransition t m2.
Proof.
  intros H. unfold verifyTransition. now rewrite H.
Qed.

(** X5. A record that a model issued keeps verifying on that model after any
    later calls of [transition] and after [reset] (given keys that sign
    correctly): the keys are made once and nothing replaces them. *)
Theorem record_keeps_verifying (inp : vector) (now : float)
    (this this1 : StateSpaceModel) (t : StateTransition)
    (clock : nat -> float) (k : nat) (inputs : list vector) :
  signs_correctly (keyPair this) ->
  transition inp now this = (Ok t, this1) ->
  verifyTransition t (after_replay clock k inputs this1) = true
  /\ forall m' : StateSpaceModel,
       reset (after_replay clock k inputs this1) = Ok m' ->
       verifyTransition t m' = true.
Proof.
  intros Hkeys Hcall.
  pose proof (verify_own_record inp now this this1 t Hkeys Hcall) as Hown.
  destruct (after_replay_keeps inputs clock k this1) as [_ Hk].
  split.
  - now rewrite (verifyTransition_same_keys t _ this1 Hk).
  - intros m' Hreset. unfold reset in Hreset.
    destruct (new_Array_fill_0 _) as [zeros|e]; [|discriminate].
    cbn [bind] in Hreset. inversion Hreset; subst m'; clear Hreset.
    rewrite <- Hown. apply verifyTransition_same_keys. exact Hk.
Qed.

(** X6. Where signing returns: on a model with well-shaped matrices, sizes
    of at least 1 and a state of the declared length, a sequence of inputs
    that all have the configured length never throws.  Every call returns a
    record, every record satisfies the recurrence ([nextState] is
    [A.prevState + B.input], [output] is [C.prevState + D.input]), and the
    model stays such a model. *)
Theorem valid_replay_returns (clock : nat -> float) (k : nat)
    (inputs : list vector) (this : StateSpaceModel)
    (sign : string -> string -> string) :
  sign_base64 = Ok sign ->
  model_ok this = true ->
  Forall (fun inp => Z.of_nat (List.length inp) = inputSize (config this))
         inputs ->
  forallb returned (replay clock k inputs this) = true
  /\ List.length (successes (replay clock k inputs this)) = List.length inputs
  /\ Forall (fun t =>
               nextState t = spec_nextState (config this) (prevState t) (input t)
               /\ output t = spec_output (config this) (prevState t) (input t))
            (successes (replay clock k inputs this))
  /\ model_ok (after_replay clock k inputs this) = true.
Proof.
  intros Hs.
  revert k this. induction inputs as [|inp rest IH]; intros k this Hok Hall.
  - repeat split; [constructor|exact Hok].
  - inversion Hall as [|? ? Hinp Hrest]; subst.
    pose proof (transition_keeps_model_ok inp (clock k) this Hok) as Hok'.
    pose proof (transition_on_model_ok inp (clock k) this Hok Hinp) as Hcall.
    cbv zeta in Hcall. rewrite Hs in Hcall.
    cbn [replay after_replay]. rewrite Hcall in *. cbn [snd] in *.
    cbn [forallb returned successes List.length andb].
    destruct (IH (S k) _ Hok' Hrest) as (Hret & Hlen & Hrec & Hend).
    cbn [config] in *.
    split; [exact Hret|]. split; [now rewrite Hlen|].
    split; [|exact Hend].
    constructor; [|exact Hrec].
    cbn [nextState prevState input output]. now split.
Qed.

End Replays.

Lemma reset_after_replay_witness :
  new_StateSpaceModel createDefaultSSMConfig test_keys = Ok default_model
  /\ reset (@after_replay test_platform (fun _ => 1700000000000%float) 0
              [ [1.0]; [0.5; 0.5]; [2.0] ]%float default_model)
     = Ok default_model.
Proof.
  split; [reflexivity|].
  apply (@reset_after_replay test_platform createDefaultSSMConfig test_keys
           default_model).
  reflexivity.
Defined.

Lemma record_keeps_verifying_witness :
  @signs_correctly test_platform (keyPair default_model)
  /\ exists (t : StateTransition) (this1 : StateSpaceModel),
       @transition test_platform [1.0]%float 1700000000000%float default_model
       = (Ok t, this1)
       /\ @verifyTransition test_platform t
            (@after_replay test_platform (fun _ => 1700000000001%float) 0
               [ [2.0]; [3.0] ]%float this1)
          = true.
Proof.
  split; [exact test_keys_sign_correctly|].
  eexists _, _. split; [vm_compute; reflexivity|].
  match goal with
  | |- verifyTransition ?t (after_replay ?c ?k ?inputs ?m) = true =>
      exact (proj1 (@record_keeps_verifying test_platform [1.0]%float
                      1700000000000%float default_model m t c k inputs
                      test_keys_sign_correctly eq_refl))
  end.
Defined.

Lemma replay_records_are_chained_witness :
  getState (@after_replay test_platform (fun _ => 1700000000000%float) 0
              [ [1.0]; [0.5; 0.5]; [1.0] ]%float default_model)
  = [1.975; 1.025]%float.
Proof.
  rewrite (proj2 (@replay_records_are_chained test_platform
                    (fun _ => 1700000000000%float) 0
                    [ [1.0]; [0.5; 0.5]; [1.0] ]%float default_model
                    _ eq_refl)).
  reflexivity.
Defined.

Lemma valid_replay_returns_witness :
  model_ok default_model = true
  /\ Forall (fun inp => Z.of_nat (List.length inp)
                        = inputSize (config default_model))
            [ [1.0]; [2.0]; [nan] ]%float
  /\ List.length
       (successes (@replay test_platform (fun _ => 1700000000000%float) 0
                     [ [1.0]; [2.0]; [nan] ]%float default_model))
     = 3.
Proof.
  assert (Hall : Forall (fun inp => Z.of_nat (List.length inp)
                                    = inputSize (config default_model))
                        [ [1.0]; [2.0]; [nan] ]%float)
    by (repeat constructor).
  split; [reflexivity|]. split; [exact Hall|].
  exact (proj1 (proj2 (@valid_replay_returns test_platform
                         (fun _ => 1700000000000%float) 0
                         [ [1.0]; [2.0]; [nan] ]%float default_model
                         _ eq_refl eq_refl Hall))).
Defined.

(** ** [NaN] spreads *)

Lemma add_nan_r (x : float) : (x + nan)%float = nan.
Proof.
  apply Prim2SF_inj. rewrite add_spec.
  change (Prim2SF nan) with S754_nan.
  now destruct (Prim2SF x).
Qed.

Lemma add_nan_l (x : float) : (nan + x)%float = nan.
Proof.
  apply Prim2SF_inj. rewrite add_spec.
  change (Prim2SF nan) with S754_nan.
  now destruct (Prim2SF x).
Qed.

Lemma mul_nan_r (x : float) : (x * nan)%float = nan.
Proof.
  apply Prim2SF_inj. rewrite mul_spec.
  change (Prim2SF nan) with S754_nan.
  now destruct (Prim2SF x).
Qed.

Lemma accumulate_from_nan (l : list (float * float)) :
  fold_left (fun acc p => (acc + fst p * snd p)%float) l nan = nan.
Proof.
  induction l as [|p l IH]; [reflexivity|].
  cbn [fold_left]. now rewrite add_nan_l.
Qed.

Lemma accumulate_nan (row : vector) :
  forall (v : vector) (acc : float),
    List.length row = List.length v ->
    In nan v ->
    fold_left (fun acc p => (acc + fst p * snd p)%float) (combine row v) acc
    = nan.
Proof.
  induction row as [|a row IH]; intros [|b v] acc Hlen Hin;
    try discriminate; [destruct Hin|].
  cbn [combine fold_left fst snd].
  destruct Hin as [->|Hin].
  - rewrite mul_nan_r, add_nan_r. apply accumulate_from_nan.
  - apply IH; [now inversion Hlen|exact Hin].
Qed.

Lemma product_with_nan (M : matrix) (v : vector) :
  (forall row, In row M -> List.length row = List.length v) ->
  In nan v ->
  matrix_vector_product M v = repeat nan (List.length M).
Proof.
  intros Hrows Hin. unfold matrix_vector_product.
  induction M as [|row M IH]; [reflexivity|].
  cbn [map List.length repeat]. f_equal.
  - unfold dot_product. apply accumulate_nan; [|exact Hin].
    apply Hrows. now left.
  - apply IH. intros r Hr. apply Hrows. now right.
Qed.

Lemma vector_sum_nan_r (a : vector) :
  vector_sum a (repeat nan (List.length a)) = repeat nan (List.length a).
Proof.
  unfold vector_sum. induction a as [|x a IH]; [reflexivity|].
  cbn [List.length repeat combine map fst snd]. now rewrite add_nan_r, IH.
Qed.

Lemma vector_sum_nan_l (b : vector) :
  vector_sum (repeat nan (List.length b)) b = repeat nan (List.length b).
Proof.
  unfold vector_sum. induction b as [|x b IH]; [reflexivity|].
  cbn [List.length repeat combine map fst snd]. now rewrite add_nan_l, IH.
Qed.

Lemma sum_of_products_with_nan (M N : matrix) (x u : vector) :
  List.length M = List.length N ->
  (forall row, In row M -> List.length row = List.length x) ->
  (forall row, In row N -> List.length row = List.length u) ->
  In nan x \/ In nan u ->
  vector_sum (matrix_vector_product M x) (matrix_vector_product N u)
  = repeat nan (List.length M).
Proof.
  intros Hlen HM HN [Hx|Hu].
  - rewrite (product_with_nan M x HM Hx).
    replace (List.length M)
      with (List.length (matrix_vector_product N u))
      by (unfold matrix_vector_product; now rewrite length_map).
    apply vector_sum_nan_l.
  - rewrite (product_with_nan N u HN Hu), <- Hlen.
    replace (List.length M)
      with (List.length (matrix_vector_product M x))
      by (unfold matrix_vector_product; now rewrite length_map).
    apply vector_sum_nan_r.
Qed.

Lemma spec_step_with_nan (cfg : SSMConfig) (state inp : vector) :
  well_shaped cfg = true ->
  Z.of_nat (List.length state) = stateSize cfg ->
  Z.of_nat (List.length inp) = inputSize cfg ->
  In nan state \/ In nan inp ->
  spec_nextState cfg state inp = repeat nan (Z.to_nat (stateSize cfg))
  /\ spec_output cfg state inp = repeat nan (Z.to_nat (outputSize cfg)).
Proof.
  intros Hshape Hstate Hinp Hnan.
  unfold well_shaped in Hshape. rewrite !andb_true_iff in Hshape.
  destruct Hshape as [[[HsA HsB] HsC] HsD].
  apply has_shape_spec in HsA, HsB, HsC, HsD.
  destruct HsA as [HlA HrA], HsB as [HlB HrB], HsC as [HlC HrC],
    HsD as [HlD HrD].
  unfold spec_nextState, spec_output. split.
  - rewrite (sum_of_products_with_nan (A cfg) (B cfg) state inp); try lia.
    + f_equal. lia.
    + intros row Hrow. specialize (HrA row Hrow). lia.
    + intros row Hrow. specialize (HrB row Hrow). lia.
    + exact Hnan.
  - rewrite (sum_of_products_with_nan (C cfg) (D cfg) state inp); try lia.
    + f_equal. lia.
    + intros row Hrow. specialize (HrC row Hrow). lia.
    + intros row Hrow. specialize (HrD row Hrow). lia.
    + exact Hnan.
Qed.

Section NaNSpreads.

Context {platform : Platform}.

Lemma nan_spreads_to_every_entry_aux (inp : vector) (now : float)
    (this : StateSpaceModel) :
  model_ok this = true ->
  Z.of_nat (List.length inp) = inputSize (config this) ->
  In nan (currentState this) \/ In nan inp ->
  let this' := snd (transition inp now this) in
  currentState this' = repeat nan (Z.to_nat (stateSize (config this)))
  /\ (forall t : StateTransition,
        fst (transition inp now this) = Ok t ->
        nextState t = repeat nan (Z.to_nat (stateSize (config this)))
        /\ output t = repeat nan (Z.to_nat (outputSize (config this))))
  /\ In nan (currentState this')
  /\ model_ok this' = true
  /\ config this' = config this.
Proof.
  intros Hok Hinp Hnan this'.
  pose proof (transition_on_model_ok inp now this Hok Hinp) as Hcall.
  cbv zeta in Hcall.
  pose proof (transition_keeps_model_ok inp now this Hok) as Hok'.
  fold this' in Hok'. unfold this'. rewrite Hcall. cbn [fst snd].
  unfold model_ok in Hok. rewrite !andb_true_iff, Z.eqb_eq in Hok.
  destruct Hok as [[Hshape Hpos] Hstate].
  destruct (spec_step_with_nan (config this) (currentState this) inp
              Hshape Hstate Hinp Hnan) as [Hnext Hout].
  cbn [currentState config].
  split; [exact Hnext|]. split.
  { destruct sign_base64 as [sign|e]; [|discriminate].
    intros t [= <-]. cbn [nextState output]. now split. }
  split; [|split; [|reflexivity]].
  - rewrite Hnext.
    unfold positive_sizes in Hpos. rewrite !andb_true_iff, !Z.leb_le in Hpos.
    destruct (Z.to_nat (stateSize (config this))) as [|n] eqn:Hn; [lia|].
    now left.
  - unfold this' in Hok'. now rewrite Hcall in Hok'.
Qed.

(** X7. On a model with well-shaped matrices, sizes of at least 1 and a
    state of the declared length, one [NaN] anywhere in the input vector or
    in the current state makes a transition on an input of the configured
    length leave the model with a state that is [NaN] in every entry; and
    the record, if the call returns one, has a next state and an output that
    are [NaN] in every entry. *)
Theorem nan_spreads_to_every_entry (inp : vector) (now : float)
    (this : StateSpaceModel) :
  model_ok this = true ->
  Z.of_nat (List.length inp) = inputSize (config this) ->
  In nan (currentState this) \/ In nan inp ->
  getState (snd (transition inp now this))
  = repeat nan (Z.to_nat (stateSize (config this)))
  /\ forall t : StateTransition,
       fst (transition inp now this) = Ok t ->
       nextState t = repeat nan (Z.to_nat (stateSize (config this)))
       /\ output t = repeat nan (Z.to_nat (outputSize (config this))).
Proof.
  intros Hok Hinp Hnan.
  destruct (nan_spreads_to_every_entry_aux inp now this Hok Hinp Hnan)
    as (Hstate & Hrecord & _).
  split; [exact Hstate|exact Hrecord].
Qed.

(** X8. Once the state of such a model holds a [NaN], it stays so: after
    every later sequence of inputs of the configured length, whatever they
    are, the state holds a [NaN], and every record made on the way has a
    next state and an output that are [NaN] in every entry.  Only [reset]
    ends it. *)
Theorem nan_state_persists (clock : nat -> float) (k : nat)
    (inputs : list vector) (this : StateSpaceModel) :
  model_ok this = true ->
  In nan (currentState this) ->
  Forall (fun inp => Z.of_nat (List.length inp) = inputSize (config this))
         inputs ->
  Forall (fun t =>
            nextState t = repeat nan (Z.to_nat (stateSize (config this)))
            /\ output t = repeat nan (Z.to_nat (outputSize (config this))))
         (successes (replay clock k inputs this))
  /\ In nan (getState (after_replay clock k inputs this)).
Proof.
  revert k this. induction inputs as [|inp rest IH];
    intros k this Hok Hnan Hall.
  - split; [constructor|exact Hnan].
  - inversion Hall as [|? ? Hinp Hrest]; subst.
    destruct (nan_spreads_to_every_entry_aux inp (clock k) this Hok Hinp
                (or_introl Hnan))
      as (_ & Hrecord & Hnan' & Hok' & Hcfg).
    cbn [replay after_replay].
    destruct (transition inp (clock k) this) as [r this'] eqn:Hcall.
    cbn [fst snd] in Hrecord, Hnan', Hok', Hcfg.
    rewrite <- Hcfg in Hrest.
    destruct (IH (S k) this' Hok' Hnan' Hrest) as (Hrec & Hend).
    rewrite Hcfg in Hrec.
    split; [|exact Hend].
    destruct r as [t|e]; cbn [successes]; [|exact Hrec].
    constructor; [now apply Hrecord|exact Hrec].
Qed.

End NaNSpreads.

Lemma nan_spreads_to_every_entry_witness :
  model_ok default_model = true
  /\ Z.of_nat (List.length [nan]) = inputSize (config default_model)
  /\ getState (snd (@transition node_like_platform [nan] 1700000000000%float
                      default_model))
     = [nan; nan].
Proof.
  split; [reflexivity|]. split; [reflexivity|].
  exact (proj1 (@nan_spreads_to_every_entry node_like_platform [nan]
                  1700000000000%float default_model eq_refl eq_refl
                  (or_intror (or_introl eq_refl)))).
Defined.

Lemma nan_state_persists_witness :
  model_ok {| config := createDefaultSSMConfig;
              currentState := [nan; 0]%float;
              keyPair := test_keys |} = true
  /\ In nan [nan; 0]%float
  /\ In nan
       (getState
          (@after_replay test_platform (fun _ => 1700000000000%float) 0
             [ [1.0]; [2.0] ]%float
             {| config := createDefaultSSMConfig;
                currentState := [nan; 0]%float;
                keyPair := test_keys |})).
Proof.
  split; [reflexivity|]. split; [now left|].
  refine (proj2 (@nan_state_persists test_platform
                   (fun _ => 1700000000000%float) 0
                   [ [1.0]; [2.0] ]%float
                   {| config := createDefaultSSMConfig;
                      currentState := [nan; 0]%float;
                      keyPair := test_keys |}
                   eq_refl (or_introl eq_refl) _)).
  repeat constructor.
Defined.
(** ** [addVectors] *)

Lemma skipn_step {T : Type} (l : list T) :
  forall s : nat,
    match skipn s l with
    | [] => nth_error l s = None /\ skipn (S s) l = []
    | y :: rest => nth_error l s = Some y /\ skipn (S s) l = rest
    end.
Proof.
  induction l as [|x l IH]; intros [|s]; cbn; try (now split).
  apply (IH s).
Qed.

Lemma addVectors_from (a : vector) :
  forall (b : vector) (s : nat),
    map (fun p => (snd p + to_number (array_get b (fst p)))%float)
        (combine (seq s (List.length a)) a)
    = (vector_sum a (skipn s b)
       ++ repeat nan (List.length a - List.length (skipn s b)))%list.
Proof.
  induction a as [|x a IH]; intros b s; [reflexivity|].
  cbn [List.length seq combine map fst snd].
  rewrite (IH b (S s)).
  pose proof (skipn_step b s) as Hstep.
  unfold array_get.
  destruct (skipn s b) as [|y rest]; destruct Hstep as [Hnth Hskip];
    rewrite Hnth, Hskip; cbn [to_number].
  - rewrite add_nan_r. unfold vector_sum. rewrite !combine_nil.
    cbn [map app List.length]. now rewrite Nat.sub_0_r.
  - reflexivity.
Qed.

(** X9. [addVectors(a, b)] always has the length of [a]: where [b] has an
    entry it holds the sum of the two entries, beyond the end of [b] it holds
    [NaN], and entries of [b] beyond the end of [a] are ignored. *)
Theorem addVectors_sums_and_pads (a b : vector) :
  addVectors a b
  = (vector_sum a b ++ repeat nan (List.length a - List.length b))%list
  /\ List.length (addVectors a b) = List.length a.
Proof.
  assert (H : addVectors a b
              = (vector_sum a b
                 ++ repeat nan (List.length a - List.length b))%list)
    by exact (addVectors_from a b 0).
  split; [exact H|].
  unfold addVectors. now rewrite length_map, length_combine, length_seq,
                       Nat.min_id.
Qed.

(** ** The audit log, whatever the clock does *)

Section AuditLogInvariants.

Context {platform : Platform}.

Lemma log_all_cons (c : string * json * Z) (calls : list (string * json * Z))
    (this : AxiomServer) :
  log_all (c :: calls) this
  = log_all calls (logAuditEvent (fst (fst c)) (snd (fst c)) (snd c) this).
Proof.
  reflexivity.
Qed.

(** X10. Logging never alters or removes an entry: after any sequence of
    [logAuditEvent] calls the earlier rows are all there, unchanged and in
    place, followed by one new row per call, in call order, each holding the
    event type, the serialized payload and the clock reading of its call;
    the model is not touched. *)
Theorem log_is_append_only (calls : list (string * json * Z))
    (this : AxiomServer) :
  exists added : list AuditLog,
    audit_logs (db (log_all calls this))
    = (audit_logs (db this) ++ added)%list
    /\ map event_type added = map (fun c => fst (fst c)) calls
    /\ map event_data added
       = map (fun c => JSON_stringify (snd (fst c))) calls
    /\ map created_at added = map snd calls
    /\ ssm (log_all calls this) = ssm this.
Proof.
  revert this. induction calls as [|c calls IH]; intros this.
  - exists []. cbn. now rewrite app_nil_r.
  - rewrite log_all_cons.
    destruct (IH (logAuditEvent (fst (fst c)) (snd (fst c)) (snd c) this))
      as (added & Hrows & Htypes & Hdata & Htimes & Hssm).
    rewrite logAuditEvent_rows in Hrows.
    eexists (_ :: added).
    split; [rewrite Hrows, <- app_assoc; reflexivity|].
    cbn [map event_type event_data created_at].
    rewrite Htypes, Hdata, Htimes.
    repeat split. exact Hssm.
Qed.

(** X11. Every entry that [logAuditEvent] writes can be checked on its own:
    its [event_hash] is the SHA-256 of its own [event_type], [event_data] and
    [prev_log_hash] ([null] read as the empty string).  So after any sequence
    of calls every row is either a row that was there before or such an
    entry, also when the clock went back and the chain forked. *)
Theorem logged_entries_are_consistent (calls : list (string * json * Z))
    (this : AxiomServer) (e : AuditLog) :
  In e (audit_logs (db (log_all calls this))) ->
  In e (audit_logs (db this)) \/ entry_consistent e.
Proof.
  revert this. induction calls as [|c calls IH]; intros this Hin;
    [now left|].
  rewrite log_all_cons in Hin.
  destruct (IH _ Hin) as [Hold|Hnew]; [|now right].
  rewrite logAuditEvent_rows in Hold.
  apply in_app_or in Hold. destruct Hold as [Hold|[<-|[]]]; [now left|].
  right. unfold entry_consistent. reflexivity.
Qed.

Lemma snoc_split {T : Type} (rows pre post : list T) (n e : T) :
  (rows ++ [n])%list = (pre ++ e :: post)%list ->
  (post = [] /\ pre = rows /\ e = n)
  \/ (exists post', post = (post' ++ [n])%list
                    /\ rows = (pre ++ e :: post')%list).
Proof.
  revert pre. induction rows as [|r rows IH]; intros pre H.
  - destruct pre as [|p pre]; cbn in H.
    + inversion H; subst. left. repeat split.
    + inversion H as [[Hp Hrest]]. destruct pre; discriminate.
  - destruct pre as [|p pre]; cbn in H.
    + inversion H; subst. right. exists rows. now split.
    + inversion H as [[Hp Hrest]]. subst p.
      destruct (IH pre Hrest) as [(-> & -> & ->)|(post' & -> & ->)].
      * left. repeat split.
      * right. exists post'. now split.
Qed.

Lemma logAuditEvent_names_a_newest_row (eventType : string)
    (eventData : json) (now : Z) (this : AxiomServer) :
  (forall s, sha256_hex s <> "") ->
  (forall r, In r (audit_logs (db this)) -> event_hash r <> "") ->
  (forall pre e post, audit_logs (db this) = (pre ++ e :: post)%list ->
                      names_a_newest_row pre e) ->
  let rows' := audit_logs (db (logAuditEvent eventType eventData now this)) in
  (forall r, In r rows' -> event_hash r <> "")
  /\ (forall pre e post, rows' = (pre ++ e :: post)%list ->
                         names_a_newest_row pre e).
Proof.
  intros Hhash Hne Hinv rows'. subst rows'. rewrite logAuditEvent_rows.
  split.
  - intros r Hr. apply in_app_or in Hr. destruct Hr as [Hr|[<-|[]]].
    + now apply Hne.
    + cbn [event_hash]. apply Hhash.
  - intros pre e post Hsplit.
    apply snoc_split in Hsplit.
    destruct Hsplit as [(-> & -> & ->)|(post' & -> & Hrows)];
      [|now apply (Hinv pre e post')].
    unfold names_a_newest_row. cbn [prev_log_hash].
    unfold getLastAuditLogHash.
    destruct (order_by_created_at_desc_limit_1 (audit_logs (db this)))
      as [r|] eqn:Hq.
    + right. exists r.
      destruct (order_by_created_at_desc_limit_1_max _ r Hq) as [Hin Hmax].
      split; [exact Hin|]. split; [exact Hmax|].
      unfold or_null.
      destruct (String.eqb_spec (event_hash r) "") as [Hempty|_];
        [|reflexivity].
      exfalso. now apply (Hne r).
    + left. split; [|reflexivity].
      now apply order_by_created_at_desc_limit_1_none.
Qed.

(** X12. In a log built from empty by [logAuditEvent] calls, at any clock
    readings, no entry names a hash out of nowhere: the first entry names
    none, and every later entry names the hash of an entry that was written
    before it, one whose [created_at] is the greatest among those (given a
    hash that is never the empty string).  The log is a tree rooted at its
    first entry, a single chain when the clock grows strictly. *)
Theorem every_entry_names_an_earlier_one (calls : list (string * json * Z))
    (this : AxiomServer) (pre post : list AuditLog) (e : AuditLog) :
  (forall s, sha256_hex s <> "") ->
  audit_logs (db this) = [] ->
  audit_logs (db (log_all calls this)) = (pre ++ e :: post)%list ->
  (pre = [] /\ prev_log_hash e = None)
  \/ (exists r, In r pre
                /\ (forall x, In x pre -> (created_at x <= created_at r)%Z)
                /\ prev_log_hash e = Some (event_hash r)).
Proof.
  intros Hhash Hempty.
  assert (Hgen : forall calls this,
             (forall r, In r (audit_logs (db this)) -> event_hash r <> "") ->
             (forall pre e post,
                 audit_logs (db this) = (pre ++ e :: post)%list ->
                 names_a_newest_row pre e) ->
             forall pre e post,
               audit_logs (db (log_all calls this)) = (pre ++ e :: post)%list ->
               names_a_newest_row pre e).
  { clear calls this pre post e Hempty.
    induction calls as [|c calls IH]; intros this Hne Hinv; [exact Hinv|].
    rewrite log_all_cons.
    destruct (logAuditEvent_names_a_newest_row (fst (fst c)) (snd (fst c))
                (snd c) this Hhash Hne Hinv) as [Hne' Hinv'].
    now apply IH. }
  apply (Hgen calls this).
  - rewrite Hempty. intros r [].
  - rewrite Hempty. intros p x q Hsplit. destruct p; discriminate.
Qed.

End AuditLogInvariants.

Lemma test_hash_nonempty (s : string) : @sha256_hex test_platform s <> "".
Proof.
  cbn. discriminate.
Qed.

Lemma logged_entries_are_consistent_witness :
  In {| event_type := "system_reset"; event_data := "{}";
        event_hash := "sha256:system_reset{}"; prev_log_hash := None;
        created_at := 1700000000000 |}
     (audit_logs (db (@log_all test_platform
                        [ ("system_reset", JObject [], 1700000000000%Z) ]
                        empty_server)))
  /\ @entry_consistent test_platform
       {| event_type := "system_reset"; event_data := "{}";
          event_hash := "sha256:system_reset{}"; prev_log_hash := None;
          created_at := 1700000000000 |}.
Proof.
  assert (Hin : In {| event_type := "system_reset"; event_data := "{}";
                      event_hash := "sha256:system_reset{}";
                      prev_log_hash := None;
                      created_at := 1700000000000 |}
                   (audit_logs
                      (db (@log_all test_platform
                             [ ("system_reset", JObject [], 1700000000000%Z) ]
                             empty_server))))
    by (now left).
  split; [exact Hin|].
  destruct (@logged_entries_are_consistent test_platform _ _ _ Hin)
    as [[]|H].
  exact H.
Defined.

(** The three appends of the clock that goes back: the third entry names
    the first, which is the newest before it. *)
Lemma every_entry_names_an_earlier_one_witness :
  audit_logs (db empty_server) = []
  /\ exists e1 e2 e3 : AuditLog,
       audit_logs
         (db (@log_all test_platform
                [ ("inference_started", JObject [], 1700000000010%Z);
                  ("inference_completed", JObject [], 1700000000005%Z);
                  ("system_reset", JObject [], 1700000000007%Z) ]
                empty_server))
       = ([e1; e2] ++ e3 :: [])%list
       /\ exists r, In r [e1; e2]
                    /\ (forall x, In x [e1; e2] ->
                                  (created_at x <= created_at r)%Z)
                    /\ prev_log_hash e3 = Some (event_hash r).
Proof.
  split; [reflexivity|].
  eexists _, _, _. split; [vm_compute; reflexivity|].
  match goal with
  | |- exists r, In r ?pre /\ _ /\ prev_log_hash ?e = _ =>
      destruct (@every_entry_names_an_earlier_one test_platform
                  [ ("inference_started", JObject [], 1700000000010%Z);
                    ("inference_completed", JObject [], 1700000000005%Z);
                    ("system_reset", JObject [], 1700000000007%Z) ]
                  empty_server pre [] e test_hash_nonempty eq_refl eq_refl)
        as [[Hnil _]|H]
  end.
  - discriminate Hnil.
  - exact H.
Defined.

Lemma appends_with_increasing_clock_are_linked_witness :
  audit_logs (db empty_server) = []
  /\ clock_increases_after None
       [ ("inference_started", JObject [], 1700000000005%Z);
         ("inference_completed", JObject [], 1700000000007%Z);
         ("system_reset", JObject [], 1700000000010%Z) ]
  /\ linked
       (audit_logs
          (db (@log_all test_platform
                 [ ("inference_started", JObject [], 1700000000005%Z);
                   ("inference_completed", JObject [], 1700000000007%Z);
                   ("system_reset", JObject [], 1700000000010%Z) ]
                 empty_server))).
Proof.
  assert (Hclock : clock_increases_after None
                     [ ("inference_started", JObject [], 1700000000005%Z);
                       ("inference_completed", JObject [], 1700000000007%Z);
                       ("system_reset", JObject [], 1700000000010%Z) ])
    by (cbn; repeat split; lia).
  split; [reflexivity|]. split; [exact Hclock|].
  exact (@appends_with_increasing_clock_are_linked test_platform _
           empty_server test_hash_nonempty eq_refl Hclock).
Defined.
(** ** The arrays that [getState] and a failed call leave *)

Section Copies.

Context {platform : Platform}.

Lemma getState_at_copies (obj : StateSpaceModelObject) (h : heap)
    (this : StateSpaceModel) :
  model_at h obj = Some this ->
  exists (a : address) (h' : heap),
    getState_at obj h = Some (a, h')
    /\ fresh h a
    /\ a <> currentState_at obj
    /\ heap_get h' a = Some (getState this)
    /\ extends h h'.
Proof.
  unfold model_at, getState_at.
  destruct (heap_get h (currentState_at obj)) as [state|] eqn:Hstate;
    [|discriminate].
  intros [= <-]. cbn [getState currentState].
  exists (fst (heap_alloc state h)), (snd (heap_alloc state h)).
  split; [now destruct (heap_alloc state h)|].
  split; [apply heap_alloc_fresh|].
  split; [|split; [apply heap_get_alloc|apply heap_alloc_extends]].
  intros Heq. pose proof (heap_alloc_fresh state h) as Hf.
  unfold fresh in Hf. rewrite Heq in Hf. congruence.
Qed.

(** X16. [getState] hands out a new array with the contents of the state:
    no array that was there before is changed, and whatever is written
    through the returned array afterwards, the model's state is what it
    was. *)
Theorem getState_returns_a_copy (obj : StateSpaceModelObject) (h : heap)
    (this : StateSpaceModel) (v : vector) :
  model_at h obj = Some this ->
  exists (a : address) (h' : heap),
    getState_at obj h = Some (a, h')
    /\ fresh h a
    /\ heap_get h' a = Some (getState this)
    /\ extends h h'
    /\ model_at (heap_set a v h') obj = Some this.
Proof.
  intros Hobj.
  destruct (getState_at_copies obj h this Hobj)
    as (a & h' & Hget & Hfresh & Hneq & Hcopy & Hext).
  exists a, h'. repeat split; try assumption.
  unfold model_at in *.
  rewrite heap_get_set_other by exact Hneq.
  destruct (heap_get h (currentState_at obj)) as [state|] eqn:Hstate;
    [|discriminate].
  now rewrite (Hext _ _ Hstate).
Qed.

End Copies.

Lemma getState_returns_a_copy_witness :
  model_at default_heap default_object = Some default_model
  /\ exists (a : address) (h' : heap),
       getState_at default_object default_heap = Some (a, h')
       /\ heap_get h' a = Some [0; 0]%float
       /\ model_at (heap_set a [5; 5]%float h') default_object
          = Some default_model.
Proof.
  split; [reflexivity|].
  destruct (@getState_returns_a_copy default_object default_heap
              default_model [5; 5]%float eq_refl)
    as (a & h' & Hget & _ & Hcopy & _ & Hkept).
  exists a, h'. repeat split; assumption.
Defined.

Lemma transition_throw_keeps_state_witness :
  fst (@transition test_platform [1; 2]%float 1700000000000%float
         default_model)
  = Throw (Error "Input size mismatch: expected 1, got 2")
  /\ (snd (@transition test_platform [1; 2]%float 1700000000000%float
             default_model)
      = default_model
      \/ @sign_base64 test_platform
         = Throw (Error "Input size mismatch: expected 1, got 2")
         /\ exists next out : vector,
              next_state_and_output (config default_model)
                (currentState default_model) [1; 2]%float
              = Ok (next, out)
              /\ snd (@transition test_platform [1; 2]%float
                        1700000000000%float default_model)
                 = {| config := config default_model; currentState := next;
                      keyPair := keyPair default_model |}).
Proof.
  split; [reflexivity|].
  exact (@transition_throw_keeps_state test_platform [1; 2]%float
           1700000000000%float default_model _ eq_refl).
Defined.

